(** * csolver: SAT encoding of reversible-circuit synthesis and its decoder

    A shallow embedding of [csolver.py]: the constraint encoder
    [solve_table], the decoder/renderer [draw_circ] with its helper
    [o_above], and the command-line driver [main].

    Python integers are [Z]; Python lists are [list] indexed through
    [py_get]/[py_set], which implement Python's negative indices and raise
    [IndexError] out of range; strings are [string]; exceptions are the
    [Raise] branch of [result].  The Z3 session is the list of asserted
    formulas, the oracle [s.check()]/[s.model()] is a parameter. *)

From Stdlib Require Import ZArith List String Ascii Bool Lia.
From Stdlib Require Import Decimal DecimalString DecimalZ.
From Stdlib Require Import Sorted Permutation.
Import ListNotations.

Local Open Scope Z_scope.

(** ** Python runtime fragments used by the program *)

Module Py.

Inductive exn :=
| IndexError
| ValueError
| FileNotFoundError
| ParserError.

Inductive result (A : Type) :=
| Ok (a : A)
| Raise (e : exn).
Arguments Ok {A} a.
Arguments Raise {A} e.

Definition bind {A B} (r : result A) (k : A -> result B) : result B :=
  match r with
  | Ok a => k a
  | Raise e => Raise e
  end.

(** [range(a, b)] *)
Definition range (a b : Z) : list Z :=
  map (fun k => a + Z.of_nat k) (seq 0 (Z.to_nat (b - a))).

(** [len(l)] *)
Definition len {A} (l : list A) : Z := Z.of_nat (List.length l).

(** The position a Python index [k] denotes in a list of length [n]:
    negative indices count from the end. *)
Definition norm_index (n : nat) (k : Z) : option nat :=
  if (0 <=? k) && (k <? Z.of_nat n) then Some (Z.to_nat k)
  else if (k <? 0) && (- Z.of_nat n <=? k) then Some (Z.to_nat (Z.of_nat n + k))
  else None.

(** [l[k]] *)
Definition py_get {A} (l : list A) (k : Z) : result A :=
  match norm_index (List.length l) k with
  | Some p =>
      match nth_error l p with
      | Some x => Ok x
      | None => Raise IndexError
      end
  | None => Raise IndexError
  end.

Fixpoint replace_nth {A} (l : list A) (p : nat) (x : A) : list A :=
  match l, p with
  | [], _ => []
  | _ :: l', O => x :: l'
  | y :: l', S p' => y :: replace_nth l' p' x
  end.

(** [l[k] = x] *)
Definition py_set {A} (l : list A) (k : Z) (x : A) : result (list A) :=
  match norm_index (List.length l) k with
  | Some p => Ok (replace_nth l p x)
  | None => Raise IndexError
  end.

(** [str(z)] for an [int] *)
Definition str (z : Z) : string := NilZero.string_of_int (Z.to_int z).

(** [int(s)] for a [str]: an optional minus sign and decimal digits.
    Python also accepts a leading plus sign and surrounding white space;
    [solve_table] never writes either. *)
Definition int (s : string) : result Z :=
  match NilZero.int_of_string s with
  | Some d => Ok (Z.of_int d)
  | None => Raise ValueError
  end.

(** [ch in s] for a one-character string [ch] *)
Fixpoint contains (ch : ascii) (s : string) : bool :=
  match s with
  | EmptyString => false
  | String a s' => Ascii.eqb a ch || contains ch s'
  end.

(** The pieces of [s.split(sep)] for a one-character separator. *)
Fixpoint split_aux (sep : ascii) (s : string) (cur : string) : list string :=
  match s with
  | EmptyString => [cur]
  | String a s' =>
      if Ascii.eqb a sep then cur :: split_aux sep s' EmptyString
      else split_aux sep s' (cur ++ String a EmptyString)%string
  end.

Definition split (sep : ascii) (s : string) : list string :=
  split_aux sep s EmptyString.

Definition LF : ascii := Ascii.ascii_of_nat 10.

(** [s.splitlines()], for text whose only line terminator is the line
    feed (the only one the program writes): no empty last line after a
    final terminator. *)
Fixpoint splitlines_aux (s : string) (cur : string) : list string :=
  match s with
  | EmptyString => match cur with EmptyString => [] | _ => [cur] end
  | String a s' =>
      if Ascii.eqb a LF then cur :: splitlines_aux s' EmptyString
      else splitlines_aux s' (cur ++ String a EmptyString)%string
  end.

Definition splitlines (s : string) : list string :=
  splitlines_aux s EmptyString.

(** [s.endswith(suffix)] *)
Definition endswith (s suffix : string) : bool :=
  let n := String.length s in
  let m := String.length suffix in
  (m <=? n)%nat && String.eqb (substring (n - m) m s) suffix.

(** Binary digits of a positive number, most significant first. *)
Fixpoint bin_pos (p : positive) (acc : string) : string :=
  match p with
  | xH => String "1" acc
  | xO p' => bin_pos p' (String "0" acc)
  | xI p' => bin_pos p' (String "1" acc)
  end.

(** [bin(z)[2:]]: for [z >= 0] the binary digits of [z]; for a negative
    [z] the slice of ["-0b..."] starts at the letter b. *)
Definition bin_tail (z : Z) : string :=
  match z with
  | Z0 => "0"
  | Zpos p => bin_pos p EmptyString
  | Zneg p => String "b" (bin_pos p EmptyString)
  end.

Fixpoint zeros (k : nat) : string :=
  match k with
  | O => EmptyString
  | S k' => String "0" (zeros k')
  end.

(** [s.zfill(width)] for a string [s] without a leading sign. *)
Definition zfill (s : string) (width : Z) : string :=
  (zeros (Z.to_nat width - String.length s) ++ s)%string.

(** [s[k]] for a [str] *)
Definition str_get (s : string) (k : Z) : result ascii :=
  py_get (list_ascii_of_string s) k.

(** [math.ceil(math.log2(n))] for an [int] [n >= 1], taken exactly (the
    double-precision logarithm agrees for every table that fits in
    memory). *)
Definition ceil_log2 (n : Z) : Z := Z.log2_up n.

End Py.

Import Py.

Declare Scope py_scope.
Delimit Scope py_scope with py.
Notation "x <- c1 ;; c2" := (bind c1 (fun x => c2))
  (at level 61, c1 at next level, right associativity) : py_scope.
Local Open Scope py_scope.

(** ** Z3 formulas *)

Inductive formula :=
| BoolVal (b : bool)
| Bool (name : string)
| Not (f : formula)
| And (f g : formula)
| Or (f g : formula)
| Xor (f g : formula)
| Eq (f g : formula).

(** Truth value of a formula under an assignment of the named atoms. *)
Fixpoint eval (a : string -> bool) (f : formula) : bool :=
  match f with
  | BoolVal b => b
  | Bool x => a x
  | Not g => negb (eval a g)
  | And g h => eval a g && eval a h
  | Or g h => eval a g || eval a h
  | Xor g h => xorb (eval a g) (eval a h)
  | Eq g h => Bool.eqb (eval a g) (eval a h)
  end.

Definition satisfies (a : string -> bool) (fs : list formula) : Prop :=
  forall f, In f fs -> eval a f = true.

(** ** The constraint encoder of [solve_table] *)

Module Encoder.

Definition c_name (i j : Z) : string := ("c_" ++ str i ++ "_" ++ str j)%string.
Definition v_name (i t : Z) : string := ("v_" ++ str i ++ "_" ++ str t)%string.
Definition n_name (i : Z) : string := ("n_" ++ str i)%string.

(** The three arrays of atoms. *)
Definition make_c (num_gates : Z) : list (list formula) :=
  map (fun i => map (fun j => Bool (c_name i j)) (range 0 num_gates))
      (range 0 num_gates).

Definition make_v (num_gates num_rows : Z) : list (list formula) :=
  map (fun i => map (fun j => Bool (v_name i j)) (range 0 num_rows))
      (range 0 num_gates).

Definition make_n (num_gates : Z) : list formula :=
  map (fun i => Bool (n_name i)) (range 0 num_gates).

(** [a[i][j]] *)
Definition get2 {A} (a : list (list A)) (i j : Z) : result A :=
  row <- py_get a i ;; py_get row j.

(** A [for] loop whose body adds assertions to the solver: the assertions
    added, in order. *)
Fixpoint for_add {A} (xs : list A) (body : A -> result (list formula))
  : result (list formula) :=
  match xs with
  | [] => Ok []
  | x :: xs' =>
      fs <- body x ;;
      gs <- for_add xs' body ;;
      Ok (fs ++ gs)%list
  end.

(** A [for] loop that updates one local variable. *)
Fixpoint for_acc {A S} (xs : list A) (s : S) (body : S -> A -> result S)
  : result S :=
  match xs with
  | [] => Ok s
  | x :: xs' => s' <- body s x ;; for_acc xs' s' body
  end.

(** Lines 95-97: no gate is controlled by itself or by a later line. *)
Definition acyclic (c : list (list formula)) (num_gates : Z)
  : result (list formula) :=
  for_add (range 0 num_gates) (fun i =>
    for_add (range i num_gates) (fun j =>
      cij <- get2 c i j ;;
      Ok [Eq cij (BoolVal false)])).

(** Lines 103-111: the last [num_output_bits] lines carry the table. *)
Definition pin_outputs (truth_table : list (list Z)) (v : list (list formula))
    (num_gates num_rows num_output_bits : Z) : result (list formula) :=
  for_add (range (num_gates - num_output_bits) num_gates) (fun gate =>
    for_add (range 0 num_rows) (fun inp =>
      table_out <- get2 truth_table inp (gate - (num_gates - num_output_bits)) ;;
      vgi <- get2 v gate inp ;;
      if table_out =? 0 then Ok [Eq vgi (BoolVal false)]
      else Ok [Eq vgi (BoolVal true)])).

(** Line 136: [bin(inp)[2:].zfill(num_input_bits)[i] == '1'] *)
Definition input_val (inp num_input_bits i : Z) : result bool :=
  ch <- str_get (zfill (bin_tail inp) num_input_bits) i ;;
  Ok (Ascii.eqb ch "1").

(** Lines 126-138: the right-hand side for line [i] and row [inp]. *)
Definition gate_clause (c v : list (list formula)) (n : list formula)
    (num_input_bits i inp : Z) : result formula :=
  ni <- py_get n i ;;
  temp <- for_acc (range 1 (i + 1)) (BoolVal true) (fun temp count =>
            vp <- get2 v (i - count) inp ;;
            cp <- get2 c i (i - count) ;;
            Ok (And temp (Or vp (Not cp)))) ;;
  let clause := Xor ni temp in
  if i <? num_input_bits then
    b <- input_val inp num_input_bits i ;;
    Ok (Xor clause (BoolVal b))
  else Ok clause.

(** Lines 122-140: the gate evolution clauses. *)
Definition evolution (c v : list (list formula)) (n : list formula)
    (num_gates num_rows num_input_bits : Z) : result (list formula) :=
  for_add (range 0 num_gates) (fun i =>
    for_add (range 0 num_rows) (fun inp =>
      clause <- gate_clause c v n num_input_bits i inp ;;
      vi <- get2 v i inp ;;
      Ok [Eq vi clause])).

(** Lines 59-70: the dimensions read off the table. *)
Definition dimensions (truth_table : list (list Z)) : result (Z * Z * Z) :=
  let num_rows := len truth_table in
  row0 <- py_get truth_table 0 ;;
  let num_cols := len row0 in
  Ok (num_rows, num_cols, ceil_log2 num_rows).

(** Lines 73-140: the arrays of atoms and everything asserted before
    [s.check()]. *)
Definition assertions (truth_table : list (list Z))
    (num_gates num_rows num_output_bits num_input_bits : Z)
  : result (list formula) :=
  let c := make_c num_gates in
  let v := make_v num_gates num_rows in
  let n := make_n num_gates in
  a <- acyclic c num_gates ;;
  p <- pin_outputs truth_table v num_gates num_rows num_output_bits ;;
  e <- evolution c v n num_gates num_rows num_input_bits ;;
  Ok (a ++ p ++ e)%list.

(** Lines 59-140: the formula [solve_table] submits for a table and a
    gate count. *)
Definition constraints (truth_table : list (list Z)) (num_gates : Z)
  : result (list formula) :=
  d <- dimensions truth_table ;;
  let '(num_rows, num_output_bits, num_input_bits) := d in
  assertions truth_table num_gates num_rows num_output_bits num_input_bits.

End Encoder.

Import Encoder.

(** ** Files, standard output and the calls the program makes *)

Module Sys.

Inductive event :=
| EvCall (fn : string)
| EvPrint (text : string)
| EvElapsed
| EvCheck (assertions : list formula)
| EvWrite (path text : string).

(** [files]: the text of every regular file, the most recent version of
    a path first.  [trace]: what the run has done so far, oldest first;
    [EvCall] marks the entry of a function, [EvElapsed] the line
    ["Time elapsed: ... seconds."] whose number depends on the clock. *)
Record world := mkWorld {
  files : list (string * string);
  trace : list event
}.

Definition M (A : Type) : Type := world -> result A * world.

Definition ret {A} (a : A) : M A := fun w => (Ok a, w).

Definition bindM {A B} (m : M A) (k : A -> M B) : M B :=
  fun w =>
    match m w with
    | (Ok a, w') => k a w'
    | (Raise e, w') => (Raise e, w')
    end.

Definition lift {A} (r : result A) : M A := fun w => (r, w).

Definition emit (e : event) : M unit :=
  fun w => (Ok tt, mkWorld (files w) (trace w ++ [e])).

Definition print (text : string) : M unit := emit (EvPrint text).

Fixpoint lookup (path : string) (fs : list (string * string)) : option string :=
  match fs with
  | [] => None
  | (p, text) :: fs' => if String.eqb p path then Some text else lookup path fs'
  end.

(** [os.path.isfile(path)] *)
Definition isfile (path : string) : M bool :=
  fun w => (Ok (match lookup path (files w) with Some _ => true | None => false end), w).

(** [open(path).read()] *)
Definition read_file (path : string) : M string :=
  fun w =>
    match lookup path (files w) with
    | Some text => (Ok text, w)
    | None => (Raise FileNotFoundError, w)
    end.

(** [open(path, "w")], the [write] calls that produce [text], [close()] *)
Definition write_file (path text : string) : M unit :=
  fun w => (Ok tt, mkWorld ((path, text) :: files w) (trace w ++ [EvWrite path text])).

End Sys.

Import Sys.

Declare Scope io_scope.
Delimit Scope io_scope with io.
Notation "x <~ c1 ;; c2" := (bindM c1 (fun x => c2))
  (at level 61, c1 at next level, right associativity) : io_scope.
Notation "c1 ;;; c2" := (bindM c1 (fun _ => c2))
  (at level 61, right associativity) : io_scope.
Local Open Scope io_scope.

(** ** A Z3 model and the atoms [solve_table] keeps *)

(** The declarations of a model with the value of each, in the order
    [for d in model] visits them. *)
Definition model := list (string * bool).

(** [str(b)] for a Boolean value *)
Definition str_bool (b : bool) : string := if b then "True" else "False".

(** Lines 150-152: the text written for one declaration. *)
Definition atom_line (d : string * bool) : string :=
  if String.eqb (str_bool (snd d)) "True" && negb (contains "v" (fst d))
  then (fst d ++ String LF EmptyString)%string
  else EmptyString.

(** Lines 150-152: the text of the synthesis result file. *)
Definition model_text (m : model) : string :=
  String.concat EmptyString (map atom_line m).

(** ** The decoder and renderer of [draw_circ] *)

Module Decoder.

Definition CONTROL_DOT : string := "o".
Definition NOT_GATE : string := "X".
Definition PIPE : string := "|".

Fixpoint insert_sorted (x : string) (l : list string) : list string :=
  match l with
  | [] => [x]
  | y :: l' => if String.leb x y then x :: l else y :: insert_sorted x l'
  end.

(** [data.sort()] *)
Definition sort (data : list string) : list string :=
  fold_right insert_sorted [] data.

Fixpoint filter_r {A} (p : A -> result bool) (l : list A) : result (list A) :=
  match l with
  | [] => Ok []
  | x :: l' =>
      b <- p x ;;
      r <- filter_r p l' ;;
      Ok (if b then x :: r else r)
  end.

Fixpoint map_r {A B} (f : A -> result B) (l : list A) : result (list B) :=
  match l with
  | [] => Ok []
  | x :: l' =>
      y <- f x ;;
      r <- map_r f l' ;;
      Ok (y :: r)
  end.

(** [i[0] == ch] *)
Definition starts_with (ch : ascii) (i : string) : result bool :=
  a <- str_get i 0 ;; Ok (Ascii.eqb a ch).

(** [int(i.split('_')[k])] *)
Definition field (k : Z) (i : string) : result Z :=
  part <- py_get (split "_" i) k ;; int part.

(** [max(l)] *)
Definition py_max (l : list Z) : result Z :=
  match l with
  | [] => Raise ValueError
  | x :: l' => Ok (fold_left Z.max l' x)
  end.

(** [a[i][j] = x] *)
Definition set2 {A} (a : list (list A)) (i j : Z) (x : A)
  : result (list (list A)) :=
  row <- py_get a i ;;
  row' <- py_set row j x ;;
  py_set a i row'.

Definition grid := list (list string).

(** Line 178 *)
Definition blank (n : Z) : grid :=
  map (fun _ => map (fun _ => "-"%string) (range 0 n)) (range 0 n).

(** Lines 181-183 *)
Definition place_nots (nots : list string) (circ : grid) : result grid :=
  for_acc nots circ (fun circ line =>
    parsed_not <- field 1 line ;;
    set2 circ parsed_not 0 NOT_GATE).

(** Lines 186-189 *)
Definition place_diagonal (n : Z) (circ : grid) : result grid :=
  for_acc (range 0 n) circ (fun circ i =>
    for_acc (range 0 n) circ (fun circ j =>
      if i =? j then set2 circ i j NOT_GATE else Ok circ)).

(** Lines 193-196 *)
Definition place_controls (cs : list string) (circ : grid) : result grid :=
  for_acc cs circ (fun circ line =>
    x <- field 1 line ;;
    y <- field 2 line ;;
    set2 circ y x CONTROL_DOT).

Fixpoint o_above_loop (circ : grid) (ys : list Z) (i : Z) : result bool :=
  match ys with
  | [] => Ok false
  | y :: ys' =>
      cell <- get2 circ y i ;;
      if String.eqb cell CONTROL_DOT then Ok true else o_above_loop circ ys' i
  end.

(** Lines 262-266 *)
Definition o_above (circ : grid) (j i : Z) : result bool :=
  o_above_loop circ (range 0 j) i.

(** Lines 199-204 *)
Definition place_pipes (n : Z) (circ : grid) : result grid :=
  for_acc (range 1 n) circ (fun circ i =>
    for_acc (range 1 i) circ (fun circ j =>
      cell <- get2 circ j i ;;
      if String.eqb cell "-" then
        above <- o_above circ j i ;;
        if above then set2 circ j i PIPE else Ok circ
      else Ok circ)).

(** Lines 210-215: the role tag of line [i]. *)
Definition label (i n num_in num_out : Z) : string :=
  if i <? num_in then "|i> "
  else if i >=? n - num_out then "|o> "
  else "|a> ".

Definition NL : string := String LF EmptyString.

(** Lines 208-221: the text of line [i] of the drawing. *)
Definition row_text (circ : grid) (n num_in num_out i : Z) : result string :=
  cells <- for_acc (range 0 n) EmptyString (fun acc j =>
             cell <- get2 circ i j ;;
             Ok (acc ++ "-" ++ cell ++ "-")%string) ;;
  Ok (label i n num_in num_out ++ cells ++ NL)%string.

(** [gate_dict], in insertion order. *)
Definition dict := list (string * Z).

Fixpoint dict_mem (k : string) (d : dict) : bool :=
  match d with
  | [] => false
  | (k', _) :: d' => String.eqb k' k || dict_mem k d'
  end.

(** [d[k] = d[k] + x] for a key that is present *)
Fixpoint dict_add (k : string) (x : Z) (d : dict) : dict :=
  match d with
  | [] => []
  | (k', y) :: d' =>
      if String.eqb k' k then (k', y + x) :: d' else (k', y) :: dict_add k x d'
  end.

(** Lines 241-244 and 247-250 *)
Definition dict_bump (k : string) (x : Z) (d : dict) : dict :=
  if dict_mem k d then dict_add k x d else (d ++ [(k, x)])%list.

(** ["C" * k] *)
Definition times_C (k : Z) : string :=
  String.concat EmptyString (repeat "C"%string (Z.to_nat k)).

(** Lines 231-234 *)
Definition count_controls (circ : grid) (n i : Z) : result Z :=
  for_acc (range 0 n) 0 (fun num_os j =>
    cell <- get2 circ j i ;;
    Ok (if String.eqb cell CONTROL_DOT then num_os + 1 else num_os)).

(** Lines 229-244 *)
Definition count_gates (circ : grid) (n : Z) : result dict :=
  for_acc (range 1 n) [] (fun gate_dict i =>
    num_os <- count_controls circ n i ;;
    Ok (dict_bump (times_C num_os ++ "NOT")%string 1 gate_dict)).

Fixpoint insert_desc (p : string * Z) (l : dict) : dict :=
  match l with
  | [] => [p]
  | q :: l' => if snd q >=? snd p then q :: insert_desc p l' else p :: l
  end.

(** [sorted(gate_dict.items(), key=lambda x: x[1], reverse=True)] *)
Definition sorted_desc (d : dict) : dict :=
  fold_left (fun acc p => insert_desc p acc) d [].

(** Line 255 *)
Definition count_line (pair : string * Z) : string :=
  (fst pair ++ " gates: " ++ str (snd pair) ++ NL)%string.

(** Lines 167-176: the sorted lines, the NOT lines, the control lines
    and the grid dimension. *)
Definition parse (lines : list string)
  : result (list string * list string * Z) :=
  let data := sort lines in
  nots <- filter_r (starts_with "n") data ;;
  cs <- filter_r (starts_with "c") data ;;
  parsed_cs <- map_r (field 1) cs ;;
  parsed_all <- map_r (field 1) data ;;
  m <- py_max parsed_all ;;
  Ok (nots, cs, m + 1).

(** Lines 178-204: the matrix of the circuit. *)
Definition matrix (nots cs : list string) (n : Z) : result grid :=
  circ <- place_nots nots (blank n) ;;
  circ <- place_diagonal n circ ;;
  circ <- place_controls cs circ ;;
  place_pipes n circ.

(** What [draw_circ] produces from the lines of the atom file: the grid
    dimension, the lines of the drawing and the lines of the gate
    counts. *)
Record drawing := mkDrawing {
  dim : Z;
  rows : list string;
  counts : list string
}.

(** Lines 208-255: the text written to the output file. *)
Definition drawing_text (d : drawing) : string :=
  (String.concat EmptyString (rows d)
   ++ NL ++ NL
   ++ "===Gate Counts====" ++ NL
   ++ String.concat EmptyString (counts d))%string.

(** Lines 167-255 *)
Definition render (lines : list string) (num_in num_out : Z) : result drawing :=
  p <- parse lines ;;
  let '(nots, cs, n) := p in
  circ <- matrix nots cs n ;;
  rs <- map_r (row_text circ n num_in num_out) (range 0 n) ;;
  gate_dict <- count_gates circ n ;;
  let gate_dict := dict_bump "NOT" (len nots) gate_dict in
  Ok (mkDrawing n rs (map count_line (sorted_desc gate_dict))).

End Decoder.

Import Decoder.

(** ** The program *)

Section Program.

(** [pd.read_csv(filename, header=None).iloc[:,1:].to_numpy()]: the
    table a file's text parses to, first column dropped.  The cells of a
    0/1 table arrive as integers, on which the conversion loop of lines
    63-65 is the identity. *)
Variable read_csv : string -> result (list (list Z)).

(** [s.check()] followed by [s.model()]: [None] when the answer is not
    [sat]. *)
Variable check : list formula -> option model.

(** Lines 50-158 *)
Definition solve_table (filename num_gates out_file : string)
  : M (bool * Z * Z) :=
  emit (EvCall "solve_table") ;;;
  print "Reading csv File..." ;;;
  text <~ read_file filename ;;
  truth_table <~ lift (read_csv text) ;;
  num_gates <~ lift (int num_gates) ;;
  d <~ lift (dimensions truth_table) ;;
  let '(num_rows, num_output_bits, num_input_bits) := d in
  print "Setting up arrays..." ;;;
  print ("Adding constraints..." ++ NL) ;;;
  fs <~ lift (assertions truth_table num_gates num_rows num_output_bits
                num_input_bits) ;;
  print ("Checking satisfiability..." ++ NL) ;;;
  emit (EvCheck fs) ;;;
  match check fs with
  | Some m =>
      print "Model is satisfiable!" ;;;
      write_file out_file (model_text m) ;;;
      ret (true, num_input_bits, num_output_bits)
  | None =>
      print "Model is not satisfiable" ;;;
      ret (false, 0, 0)
  end.

(** Lines 163-258.  The output file is opened at line 207, after the
    matrix is complete; the reads that follow stay inside the matrix
    (see [rows_total] and [count_gates_total]), so the file is written
    whole or not at all. *)
Definition draw_circ (infile outfile : string) (num_in num_out : Z) : M unit :=
  emit (EvCall "draw_circ") ;;;
  text <~ read_file infile ;;
  d <~ lift (render (splitlines text) num_in num_out) ;;
  write_file outfile (drawing_text d) ;;;
  print "Drawn circuit to file.".

(** Lines 269-295 *)
Definition main (argv : list string) : M unit :=
  if len argv =? 4 then
    filename <~ lift (py_get argv 1) ;;
    num_gates <~ lift (py_get argv 2) ;;
    out_file <~ lift (py_get argv 3) ;;
    present <~ isfile filename ;;
    if present then
      if endswith filename ".csv" then
        r <~ solve_table filename num_gates out_file ;;
        let '(ok, num_in, num_out) := r in
        emit EvElapsed ;;;
        if ok then
          print "Drawing circuit to file..." ;;;
          draw_circ out_file out_file num_in num_out
        else ret tt
      else print "Please input a .csv file."
    else print "That file does not exist."
  else print "Please input the correct number of arguments.".

(** Lines 299-300: the exit status of the interpreter, 0 when [main]
    returns and 1 when an exception escapes it. *)
Definition exit_status (argv : list string) (w : world) : Z * world :=
  match main argv w with
  | (Ok _, w') => (0, w')
  | (Raise _, w') => (1, w')
  end.

End Program.

(** ** Concrete collaborators for running the program *)

(** The assignment a model denotes; an atom the model leaves out reads
    false. *)
Fixpoint assignment (m : model) (x : string) : bool :=
  match m with
  | [] => false
  | (d, b) :: m' => if String.eqb d x then b else assignment m' x
  end.

(** An oracle that answers [sat] with the model [m] exactly when [m]
    satisfies the assertions. *)
Definition oracle_with (m : model) (fs : list formula) : option model :=
  if forallb (eval (assignment m)) fs then Some m else None.

(** A reader that knows the table of one text. *)
Definition reader_of (text : string) (table : list (list Z)) (s : string)
  : result (list (list Z)) :=
  if String.eqb s text then Ok table else Raise ParserError.

Definition world0 (fs : list (string * string)) : world := mkWorld fs [].

(** A file system holding one table file. *)
Definition one_table : world := world0 [("a.csv", "t")]%string.

(** A table of one row with two output columns, and a model of its
    formula with a single line. *)
Definition wide_table : list (list Z) := [[1; 1]].

Definition wide_model : model :=
  [("c_0_0", false); ("v_0_0", true); ("n_0", false)]%string.

(** A table of one row with one output column, and a model of its
    formula with two lines in which only [n_0] among the [c] and [n]
    atoms is true. *)
Definition unit_table : list (list Z) := [[1]].

Definition unit_model : model :=
  [("c_0_0", false); ("c_0_1", false); ("c_1_0", false); ("c_1_1", false);
   ("n_0", true); ("n_1", false); ("v_0_0", false); ("v_1_0", true)]%string.

(** The table of the identity on one bit, and the model of its formula
    with a single line, which is both its input and its output. *)
Definition wire_table : list (list Z) := [[0]; [1]].

Definition wire_model : model :=
  [("c_0_0", false); ("n_0", true); ("v_0_0", false); ("v_0_1", true)]%string.

(** The table of a single NOT gate, one output column over two rows. *)
Definition not_table : list (list Z) := [[1]; [0]].

(** The formula of [not_table] with two lines. *)
Definition not_formula : list formula :=
  Eval vm_compute in
    match constraints not_table 2 with
    | Ok fs => fs
    | Raise _ => []
    end.


(** ** The gate evolution rule in the words of the design *)

Module Rule.

(** AND over count = 1..i of (v[i-count][t] OR NOT c[i][i-count]) *)
Definition propagated (a : string -> bool) (i t : Z) : bool :=
  forallb (fun count => a (v_name (i - count) t) || negb (a (c_name i (i - count))))
          (range 1 (i + 1)).

(** Bit [i] of [t] written with [num_input_bits] binary digits, digit 0
    being the most significant. *)
Definition index_bit (num_input_bits t i : Z) : bool :=
  Z.testbit t (num_input_bits - 1 - i).

Definition digit (b : bool) : ascii := if b then "1"%char else "0"%char.

(** The [w] low binary digits of [t], most significant first. *)
Fixpoint bits_str (w : nat) (t : Z) : string :=
  match w with
  | O => EmptyString
  | S w' => String (digit (Z.testbit t (Z.of_nat w'))) (bits_str w' t)
  end.

(** The value the formula gives line [i] on row [t]. *)
Definition clause_value (a : string -> bool) (num_input_bits i t : Z) : bool :=
  let base := xorb (a (n_name i)) (propagated a i t) in
  if i <? num_input_bits then xorb base (index_bit num_input_bits t i) else base.

End Rule.

Import Rule.

(** ** The atoms of the formula, by family *)

Inductive atom :=
| AtomC (i j : Z)
| AtomV (i t : Z)
| AtomN (i : Z).

Definition name (x : atom) : string :=
  match x with
  | AtomC i j => c_name i j
  | AtomV i t => v_name i t
  | AtomN i => n_name i
  end.

Definition is_v (x : atom) : bool :=
  match x with
  | AtomV _ _ => true
  | _ => false
  end.

(** The characters [str] can produce. *)
Definition numeral_char (ch : ascii) : bool :=
  contains ch "0123456789-".

(** A model given over atoms, as Z3 reports it by name. *)
Definition named (am : list (atom * bool)) : model :=
  map (fun xb => (name (fst xb), snd xb)) am.

(** The atoms of the [c] and [n] families that a model makes true. *)
Definition kept (am : list (atom * bool)) : list atom :=
  map fst (filter (fun xb => snd xb && negb (is_v (fst xb))) am).

(** The atoms a result file can name: NOT selectors, and controls by a
    line of smaller index. *)
Definition circuit_atom (x : atom) : bool :=
  match x with
  | AtomC i j => (0 <=? j) && (j <? i)
  | AtomN i => 0 <=? i
  | AtomV _ _ => false
  end.

(** The line an atom belongs to. *)
Definition line_of (x : atom) : Z :=
  match x with
  | AtomC i _ => i
  | AtomV i _ => i
  | AtomN i => i
  end.

(** An [n] by [n] matrix. *)
Definition square (n : nat) (circ : grid) : Prop :=
  List.length circ = n /\ Forall (fun row => List.length row = n) circ.

(** ** What a run has done *)

Definition is_check (e : event) : bool :=
  match e with
  | EvCheck _ => true
  | _ => false
  end.

Definition is_call (fn : string) (e : event) : bool :=
  match e with
  | EvCall f => String.eqb f fn
  | _ => false
  end.

Definition is_write (e : event) : bool :=
  match e with
  | EvWrite _ _ => true
  | _ => false
  end.

(** The events of [solve_table] up to the construction of the formula. *)
Definition setup_events : list event :=
  [EvCall "solve_table"; EvPrint "Reading csv File..."; EvPrint "Setting up arrays...";
   EvPrint ("Adding constraints..." ++ NL)].

(** The events of a [solve_table] call that reaches the oracle. *)
Definition check_events (fs : list formula) : list event :=
  (setup_events ++ [EvPrint ("Checking satisfiability..." ++ NL); EvCheck fs])%list.

(** ** Invocations that [main] turns away *)

Inductive diagnosis :=
| BadArgumentCount
| NoSuchFile
| NotCsv.

Definition message (d : diagnosis) : string :=
  match d with
  | BadArgumentCount => "Please input the correct number of arguments."
  | NoSuchFile => "That file does not exist."
  | NotCsv => "Please input a .csv file."
  end.

(** The configuration error of an invocation, if it has one. *)
Definition diagnose (argv : list string) (w : world) : option diagnosis :=
  match argv with
  | [_; filename; _; _] =>
      match lookup filename (files w) with
      | None => Some NoSuchFile
      | Some _ => if endswith filename ".csv" then None else Some NotCsv
      end
  | _ => Some BadArgumentCount
  end.

(** ** Sizes and sums *)

(** Sum of a list of integers. *)
Definition total (l : list Z) : Z := fold_right Z.add 0 l.

(** The sum of the counts of a [gate_dict]. *)
Definition dict_total (d : dict) : Z := total (map snd d).

(** ** Evaluating the circuit of an assignment *)

(** The value of line [i] on row [t] when the lines are evaluated in
    index order from the controls [c] and the NOT selectors [n] by the
    rule of line 119; [fuel] bounds the depth and [fuel > i] suffices. *)
Fixpoint line_value (c : Z -> Z -> bool) (n : Z -> bool)
    (num_input_bits t : Z) (fuel : nat) (i : Z) : bool :=
  match fuel with
  | O => false
  | S fuel' =>
      let fired :=
        forallb (fun count =>
                   line_value c n num_input_bits t fuel' (i - count)
                   || negb (c i (i - count)))
                (range 1 (i + 1)) in
      let base := xorb (n i) fired in
      if i <? num_input_bits then xorb base (index_bit num_input_bits t i)
      else base
  end.

(** The controls and NOT selectors an assignment gives. *)
Definition controls_of (a : string -> bool) (i j : Z) : bool := a (c_name i j).
Definition nots_of (a : string -> bool) (i : Z) : bool := a (n_name i).

(** A model of the NOT table with two lines: line 1 is a NOT controlled
    by line 0. *)
Definition not_model : list (atom * bool) :=
  [(AtomC 0 0, false); (AtomC 0 1, false); (AtomC 1 0, true);
   (AtomC 1 1, false); (AtomN 0, true); (AtomN 1, true);
   (AtomV 0 0, false); (AtomV 0 1, true); (AtomV 1 0, true);
   (AtomV 1 1, false)].

(** ** The drawing in terms of the atoms *)

Definition atom_eqb (x y : atom) : bool :=
  match x, y with
  | AtomC i j, AtomC i' j' => (i =? i') && (j =? j')
  | AtomV i t, AtomV i' t' => (i =? i') && (t =? t')
  | AtomN i, AtomN i' => i =? i'
  | _, _ => false
  end.

Definition has_atom (xs : list atom) (x : atom) : bool :=
  existsb (atom_eqb x) xs.

(** Line [r] controls the gate of column [c]. *)
Definition dot (xs : list atom) (r c : Z) : bool := has_atom xs (AtomC c r).

(** The symbol in row [r] and column [c] of the matrix for the atoms
    [xs]: a control dot where line [r] controls gate [c]; the target
    marker on the diagonal; a NOT in column 0 of a line whose selector
    is set; a pipe on a blank cell, strictly between row 0 and the
    diagonal, that has a control dot above it in its column. *)
Definition spec_cell (xs : list atom) (r c : Z) : string :=
  if dot xs r c then CONTROL_DOT
  else if r =? c then NOT_GATE
  else if (c =? 0) && has_atom xs (AtomN r) then NOT_GATE
  else if (1 <=? r) && (r <? c) && existsb (fun y => dot xs y c) (range 0 r)
       then PIPE
  else "-".

(** The matrix before the pipes are drawn. *)
Definition pre_pipe (xs : list atom) (r c : Z) : string :=
  if dot xs r c then CONTROL_DOT
  else if r =? c then NOT_GATE
  else if (c =? 0) && has_atom xs (AtomN r) then NOT_GATE
  else "-".

(** The cells of line [r] as they are written, each between two
    dashes. *)
Definition spec_row (xs : list atom) (n r : Z) : string :=
  String.concat EmptyString
    (map (fun c => ("-" ++ spec_cell xs r c ++ "-")%string) (range 0 n)).

(** The indices [draw_circ] reads from a line, [-1] standing for a
    field that does not parse. *)
Definition line_index (s : string) : Z :=
  match field 1 s with Ok k => k | Raise _ => -1 end.

Definition control_index (s : string) : Z :=
  match field 2 s with Ok k => k | Raise _ => -1 end.

(** Lines 199-204: where a pipe goes in the matrix [f]. *)
Definition pipe_here (f : Z -> Z -> string) (r c : Z) : bool :=
  String.eqb (f r c) "-"
  && existsb (fun y => String.eqb (f y c) CONTROL_DOT) (range 0 r).

(** The matrix [circ] holds [f r c] in row [r] and column [c]. *)
Definition cells (n : Z) (circ : grid) (f : Z -> Z -> string) : Prop :=
  forall r c, 0 <= r < n -> 0 <= c < n -> get2 circ r c = Ok (f r c).

(** Writing [v] where [h] holds. *)
Definition paint (h : Z -> Z -> bool) (v : string) (f : Z -> Z -> string)
  : Z -> Z -> string :=
  fun r c => if h r c then v else f r c.

(** Counts in descending order. *)
Definition desc (p q : string * Z) : Prop := snd p >= snd q.

(** The entries of a [gate_dict] with the count [k], in order. *)
Definition with_count (k : Z) (d : dict) : dict :=
  filter (fun p => snd p =? k) d.

(** Lexicographic order of strings. *)
Definition str_le (a b : string) : Prop := String.leb a b = true.

(** The atoms of the formula for [g] lines and [r] rows. *)
Definition in_formula (g r : Z) (x : atom) : bool :=
  match x with
  | AtomC i j => (0 <=? i) && (i <? g) && (0 <=? j) && (j <? g)
  | AtomV i t => (0 <=? i) && (i <? g) && (0 <=? t) && (t <? r)
  | AtomN i => (0 <=? i) && (i <? g)
  end.


(** The names of the atoms that occur in a formula. *)
Fixpoint atoms_of (f : formula) : list string :=
  match f with
  | BoolVal _ => []
  | Bool x => [x]
  | Not g => atoms_of g
  | And g h | Or g h | Xor g h | Eq g h => (atoms_of g ++ atoms_of h)%list
  end.

(** A formula over the atoms of [g] lines and [r] rows only. *)
Definition over_atoms (g r : Z) (f : formula) : Prop :=
  forall a, In a (atoms_of f) ->
    exists x, in_formula g r x = true /\ a = name x.

(** ** What a run may touch *)

(** An event that is not a write, or a write to [out]. *)
Definition writes_to (out : string) (e : event) : Prop :=
  match e with
  | EvWrite p _ => p = out
  | _ => True
  end.

(** From [w] to [w'] events were only added, every write among them was
    to [out], and every other path reads as before. *)
Definition touches_only (out : string) (w w' : world) : Prop :=
  (exists done, trace w' = (trace w ++ done)%list /\ Forall (writes_to out) done) /\
  (forall p, p <> out -> lookup p (files w') = lookup p (files w)).

(** A computation that touches only [out], from every world. *)
Definition frame {A} (out : string) (m : M A) : Prop :=
  forall w, touches_only out w (snd (m w)).

(** * Properties *)

(** ** Python lists and ranges *)

Lemma bind_Ok {A B} (r : result A) (k : A -> result B) (b : B) :
  bind r k = Ok b -> exists a, r = Ok a /\ k a = Ok b.
Proof.
  destruct r as [a|e]; simpl; intros H; [eauto | discriminate].
Qed.

Ltac inv_bind H :=
  let x := fresh "x" in
  let Hx := fresh "Hx" in
  apply bind_Ok in H; destruct H as [x [Hx H]].

Lemma In_range (a b k : Z) : In k (range a b) <-> a <= k < b.
Proof.
  unfold range. rewrite in_map_iff. split.
  - intros [n [<- Hn]]. apply in_seq in Hn. lia.
  - intros Hk. exists (Z.to_nat (k - a)). split; [lia|].
    apply in_seq. lia.
Qed.

Lemma length_range (a b : Z) : List.length (range a b) = Z.to_nat (b - a).
Proof. unfold range. now rewrite length_map, length_seq. Qed.

Lemma nth_error_range (a b : Z) (p : nat) :
  (p < Z.to_nat (b - a))%nat -> nth_error (range a b) p = Some (a + Z.of_nat p).
Proof.
  intros Hp. unfold range.
  rewrite nth_error_map, nth_error_seq.
  destruct (Nat.ltb_spec p (Z.to_nat (b - a))); [reflexivity | lia].
Qed.

Lemma py_get_map_range {A} (f : Z -> A) (n k : Z) :
  0 <= k < n -> py_get (map f (range 0 n)) k = Ok (f k).
Proof.
  intros Hk. unfold py_get, norm_index.
  rewrite length_map, length_range.
  destruct (Z.leb_spec 0 k); [|lia].
  destruct (Z.ltb_spec k (Z.of_nat (Z.to_nat (n - 0)))); [|lia]. simpl.
  rewrite nth_error_map, nth_error_range by lia. simpl.
  f_equal. f_equal. lia.
Qed.

Lemma py_get_map_range_neg {A} (f : Z -> A) (n k : Z) :
  - n <= k < 0 -> py_get (map f (range 0 n)) k = Ok (f (n + k)).
Proof.
  intros Hk. unfold py_get, norm_index.
  rewrite length_map, length_range.
  destruct (Z.leb_spec 0 k); [lia|]. simpl.
  destruct (Z.ltb_spec k 0); [|lia].
  destruct (Z.leb_spec (- Z.of_nat (Z.to_nat (n - 0))) k); [|lia]. simpl.
  rewrite nth_error_map, nth_error_range by lia. simpl.
  f_equal. f_equal. lia.
Qed.

Lemma py_get_map_range_out {A} (f : Z -> A) (n k : Z) :
  k < - Z.max n 0 \/ Z.max n 0 <= k ->
  py_get (map f (range 0 n)) k = Raise IndexError.
Proof.
  intros Hk. unfold py_get, norm_index.
  rewrite length_map, length_range.
  destruct (Z.leb_spec 0 k); simpl.
  - destruct (Z.ltb_spec k (Z.of_nat (Z.to_nat (n - 0)))); [lia|]. simpl.
    destruct (Z.ltb_spec k 0); [lia|]. reflexivity.
  - destruct (Z.ltb_spec k 0); [|lia].
    destruct (Z.leb_spec (- Z.of_nat (Z.to_nat (n - 0))) k); [lia|]. reflexivity.
Qed.

Lemma py_get_in_range {A} (l : list A) (k : Z) :
  0 <= k < len l -> exists x, py_get l k = Ok x /\ nth_error l (Z.to_nat k) = Some x.
Proof.
  unfold len. intros Hk. unfold py_get, norm_index.
  destruct (Z.leb_spec 0 k); [|lia].
  destruct (Z.ltb_spec k (Z.of_nat (List.length l))); [|lia]. simpl.
  destruct (nth_error l (Z.to_nat k)) eqn:E; [eauto|].
  apply nth_error_None in E. lia.
Qed.

(** ** Loops that add assertions *)

Lemma for_add_inv {A} (xs : list A) (body : A -> result (list formula)) fs x :
  for_add xs body = Ok fs -> In x xs ->
  exists gs, body x = Ok gs /\ incl gs fs.
Proof.
  revert fs. induction xs as [|y xs IH]; intros fs H Hin; [destruct Hin|].
  simpl in H. inv_bind H. inv_bind H. injection H as <-.
  destruct Hin as [->|Hin].
  - exists x0. split; [assumption|]. apply incl_appl, incl_refl.
  - destruct (IH _ Hx0 Hin) as [gs [Hb Hi]].
    exists gs. split; [assumption|]. apply incl_appr, Hi.
Qed.

Lemma for_add_total {A} (xs : list A) (body : A -> result (list formula)) :
  (forall x, In x xs -> exists gs, body x = Ok gs) ->
  exists fs, for_add xs body = Ok fs.
Proof.
  induction xs as [|y xs IH]; intros H; simpl; [eauto|].
  destruct (H y (or_introl eq_refl)) as [gs ->].
  destruct IH as [fs ->]; [intros; apply H; now right|].
  simpl. eauto.
Qed.

Lemma for_add_raise_first {A} (x : A) xs (body : A -> result (list formula)) e :
  body x = Raise e -> for_add (x :: xs) body = Raise e.
Proof. intros H. simpl. now rewrite H. Qed.

(** ** The arrays of atoms *)

Lemma get2_make_v (num_gates num_rows i t : Z) :
  0 <= i < num_gates -> 0 <= t < num_rows ->
  get2 (make_v num_gates num_rows) i t = Ok (Bool (v_name i t)).
Proof.
  intros Hi Ht. unfold get2, make_v.
  rewrite py_get_map_range by assumption. simpl.
  now rewrite py_get_map_range.
Qed.

Lemma get2_make_c (num_gates i j : Z) :
  0 <= i < num_gates -> 0 <= j < num_gates ->
  get2 (make_c num_gates) i j = Ok (Bool (c_name i j)).
Proof.
  intros Hi Hj. unfold get2, make_c.
  rewrite py_get_map_range by assumption. simpl.
  now rewrite py_get_map_range.
Qed.

Lemma get_make_n (num_gates i : Z) :
  0 <= i < num_gates -> py_get (make_n num_gates) i = Ok (Bool (n_name i)).
Proof. intros Hi. unfold make_n. now rewrite py_get_map_range. Qed.

(** ** Strings *)

Lemma append_assoc (s1 s2 s3 : string) :
  ((s1 ++ s2) ++ s3 = s1 ++ (s2 ++ s3))%string.
Proof. induction s1; simpl; congruence. Qed.

Lemma append_empty_r (s : string) : (s ++ EmptyString)%string = s.
Proof. induction s; simpl; congruence. Qed.

Lemma length_append (s1 s2 : string) :
  String.length (s1 ++ s2) = (String.length s1 + String.length s2)%nat.
Proof. induction s1; simpl; congruence. Qed.

(** ** Binary digits of a row index *)

Lemma bits_str_app (k w : nat) (t : Z) :
  (forall j, Z.of_nat w <= j -> Z.testbit t j = false) ->
  bits_str (k + w) t = (zeros k ++ bits_str w t)%string.
Proof.
  intros Hhigh. induction k as [|k IH]; [reflexivity|].
  simpl. rewrite IH. rewrite Hhigh by lia. reflexivity.
Qed.

Lemma bits_str_double (w : nat) (a : Z) (b : bool) :
  0 <= a ->
  bits_str (S w) (2 * a + Z.b2z b) =
  (bits_str w a ++ String (digit b) EmptyString)%string.
Proof.
  intros Ha. induction w as [|w IH].
  - cbn [bits_str append]. change (Z.of_nat 0) with 0.
    now rewrite Z.testbit_0_r.
  - change (bits_str (S (S w)) (2 * a + Z.b2z b))
      with (String (digit (Z.testbit (2 * a + Z.b2z b) (Z.of_nat (S w))))
                   (bits_str (S w) (2 * a + Z.b2z b))).
    rewrite IH. simpl bits_str at 2. simpl append.
    f_equal. f_equal.
    rewrite Nat2Z.inj_succ. rewrite Z.testbit_succ_r by lia. reflexivity.
Qed.

Lemma bin_pos_bits (p : positive) (acc : string) :
  bin_pos p acc = (bits_str (Pos.size_nat p) (Zpos p) ++ acc)%string.
Proof.
  revert acc. induction p as [p IH|p IH|]; intros acc.
  - simpl bin_pos. rewrite IH.
    change (Pos.size_nat p~1) with (S (Pos.size_nat p)).
    change (Z.pos p~1) with (2 * Z.pos p + Z.b2z true).
    rewrite bits_str_double by lia.
    now rewrite append_assoc.
  - simpl bin_pos. rewrite IH.
    change (Pos.size_nat p~0) with (S (Pos.size_nat p)).
    replace (Z.pos p~0) with (2 * Z.pos p + Z.b2z false) by (simpl; lia).
    rewrite bits_str_double by lia.
    now rewrite append_assoc.
  - reflexivity.
Qed.

Lemma size_nat_bound (p : positive) (w : Z) :
  0 <= w -> Zpos p < 2 ^ w -> (Pos.size_nat p <= Z.to_nat w)%nat.
Proof.
  revert w. induction p as [p IH|p IH|]; intros w Hw Hlt.
  - assert (0 < w) by (destruct (Z.eq_dec w 0) as [->|]; [simpl in Hlt|]; lia).
    replace w with (Z.succ (w - 1)) in Hlt by lia.
    rewrite Z.pow_succ_r in Hlt by lia.
    specialize (IH (w - 1)). simpl. lia.
  - assert (0 < w) by (destruct (Z.eq_dec w 0) as [->|]; [simpl in Hlt|]; lia).
    replace w with (Z.succ (w - 1)) in Hlt by lia.
    rewrite Z.pow_succ_r in Hlt by lia.
    specialize (IH (w - 1)). simpl. lia.
  - assert (0 < w) by (destruct (Z.eq_dec w 0) as [->|]; [simpl in Hlt|]; lia).
    simpl. lia.
Qed.

Lemma high_bits_zero (p : positive) (j : Z) :
  Z.of_nat (Pos.size_nat p) <= j -> Z.testbit (Zpos p) j = false.
Proof.
  revert j. induction p as [p IH|p IH|]; intros j Hj.
  - change (Z.pos p~1) with (2 * Z.pos p + 1).
    simpl Pos.size_nat in Hj.
    replace j with (Z.succ (j - 1)) by lia.
    rewrite Z.testbit_odd_succ by lia. apply IH. lia.
  - change (Z.pos p~0) with (2 * Z.pos p).
    simpl Pos.size_nat in Hj.
    replace j with (Z.succ (j - 1)) by lia.
    rewrite Z.testbit_even_succ by lia. apply IH. lia.
  - simpl Pos.size_nat in Hj.
    replace j with (Z.succ (j - 1)) by lia.
    change 1 with (2 * 0 + 1).
    rewrite Z.testbit_odd_succ by lia. apply Z.testbit_0_l.
Qed.

Lemma length_bits_str (w : nat) (t : Z) : String.length (bits_str w t) = w.
Proof. induction w; simpl; congruence. Qed.

Lemma zeros_bits (k : nat) : zeros k = bits_str k 0.
Proof. induction k as [|k IH]; simpl; [|rewrite IH, Z.testbit_0_l]; reflexivity. Qed.

Lemma zfill_bin_tail (t w : Z) :
  0 < w -> 0 <= t < 2 ^ w ->
  zfill (bin_tail t) w = bits_str (Z.to_nat w) t.
Proof.
  intros Hw Ht. unfold zfill. destruct t as [|p|p]; [| |lia].
  - simpl bin_tail. simpl String.length.
    replace (Z.to_nat w) with (S (Z.to_nat w - 1)) at 2 by lia.
    simpl bits_str. rewrite Z.testbit_0_l. simpl digit.
    rewrite zeros_bits.
    generalize (Z.to_nat w - 1)%nat. intros k.
    induction k as [|k IH]; simpl; [reflexivity|].
    rewrite Z.testbit_0_l. simpl. now rewrite IH.
  - simpl bin_tail. rewrite bin_pos_bits.
    assert (Hs := size_nat_bound p w (Z.lt_le_incl _ _ Hw) (proj2 Ht)).
    assert (String.length (bits_str (Pos.size_nat p) (Z.pos p) ++ EmptyString)
            = Pos.size_nat p) as ->.
    { now rewrite append_empty_r, length_bits_str. }
    replace (Z.to_nat w) with ((Z.to_nat w - Pos.size_nat p) + Pos.size_nat p)%nat
      at 2 by lia.
    rewrite bits_str_app by (apply high_bits_zero).
    now rewrite append_empty_r.
Qed.

Lemma str_get_bits (w : nat) (t i : Z) :
  0 <= i < Z.of_nat w ->
  str_get (bits_str w t) i = Ok (digit (Z.testbit t (Z.of_nat w - 1 - i))).
Proof.
  intros Hi. unfold str_get, py_get, norm_index.
  assert (Hlen : List.length (list_ascii_of_string (bits_str w t)) = w).
  { clear. induction w; simpl; congruence. }
  rewrite Hlen.
  destruct (Z.leb_spec 0 i); [|lia].
  destruct (Z.ltb_spec i (Z.of_nat w)); [|lia]. simpl.
  assert (Hn : forall k, (k < w)%nat ->
            nth_error (list_ascii_of_string (bits_str w t)) k
            = Some (digit (Z.testbit t (Z.of_nat (w - 1 - k))))).
  { clear. induction w as [|w IH]; intros k Hk; [lia|].
    destruct k as [|k]; cbn [nth_error list_ascii_of_string bits_str].
    - do 4 f_equal. lia.
    - rewrite IH by lia. do 4 f_equal. lia. }
  rewrite Hn by lia. do 3 f_equal. lia.
Qed.

Lemma input_val_index_bit (t w i : Z) :
  0 <= t < 2 ^ w -> 0 <= i < w ->
  input_val t w i = Ok (index_bit w t i).
Proof.
  intros Ht Hi. unfold input_val.
  rewrite zfill_bin_tail by lia.
  rewrite str_get_bits by lia. simpl.
  unfold index_bit. rewrite Z2Nat.id by lia.
  now destruct (Z.testbit t (w - 1 - i)).
Qed.

Lemma row_below_pow2 (num_rows t : Z) :
  0 <= t < num_rows -> 0 <= t < 2 ^ ceil_log2 num_rows.
Proof.
  intros Ht. split; [lia|]. unfold ceil_log2.
  assert (H := Z.log2_log2_up_spec num_rows). lia.
Qed.

(** ** The formula built by [solve_table] *)

Lemma constraints_inv (truth_table : list (list Z)) (num_gates : Z) fs :
  constraints truth_table num_gates = Ok fs ->
  exists row0 a p e,
    py_get truth_table 0 = Ok row0 /\
    acyclic (make_c num_gates) num_gates = Ok a /\
    pin_outputs truth_table (make_v num_gates (len truth_table)) num_gates
      (len truth_table) (len row0) = Ok p /\
    evolution (make_c num_gates) (make_v num_gates (len truth_table))
      (make_n num_gates) num_gates (len truth_table)
      (ceil_log2 (len truth_table)) = Ok e /\
    fs = (a ++ p ++ e)%list.
Proof.
  unfold constraints, dimensions, assertions. intros H.
  inv_bind H. inv_bind Hx. injection Hx as <-.
  inv_bind H. inv_bind H. inv_bind H. injection H as <-.
  exists x0, x, x1, x2. auto.
Qed.

Lemma temp_loop_eval (a : string -> bool) (num_gates num_rows i t : Z)
    (counts : list Z) (temp0 temp : formula) :
  0 <= i < num_gates -> 0 <= t < num_rows ->
  (forall count, In count counts -> 1 <= count <= i) ->
  for_acc counts temp0 (fun temp count =>
    vp <- get2 (make_v num_gates num_rows) (i - count) t ;;
    cp <- get2 (make_c num_gates) i (i - count) ;;
    Ok (And temp (Or vp (Not cp)))) = Ok temp ->
  eval a temp =
  eval a temp0 &&
  forallb (fun count => a (v_name (i - count) t) || negb (a (c_name i (i - count))))
          counts.
Proof.
  intros Hi Ht. revert temp0.
  induction counts as [|count counts IH]; intros temp0 Hc H.
  - simpl in H. injection H as <-. simpl. now rewrite andb_true_r.
  - simpl in H.
    assert (Hcount : 1 <= count <= i) by (apply Hc; now left).
    rewrite get2_make_v, get2_make_c in H by lia. simpl in H.
    rewrite (IH _ (fun k Hk => Hc k (or_intror Hk)) H).
    simpl. now rewrite andb_assoc.
Qed.

Lemma temp_loop_total (num_gates num_rows i t : Z) (counts : list Z)
    (temp0 : formula) :
  0 <= i < num_gates -> 0 <= t < num_rows ->
  (forall count, In count counts -> 1 <= count <= i) ->
  exists temp,
    for_acc counts temp0 (fun temp count =>
      vp <- get2 (make_v num_gates num_rows) (i - count) t ;;
      cp <- get2 (make_c num_gates) i (i - count) ;;
      Ok (And temp (Or vp (Not cp)))) = Ok temp.
Proof.
  intros Hi Ht. revert temp0.
  induction counts as [|count counts IH]; intros temp0 Hc; simpl; [eauto|].
  assert (Hcount : 1 <= count <= i) by (apply Hc; now left).
  rewrite get2_make_v, get2_make_c by lia. simpl.
  apply IH. intros k Hk. apply Hc. now right.
Qed.

Lemma gate_clause_eval (a : string -> bool)
    (num_gates num_rows num_input_bits i t : Z) (clause : formula) :
  0 <= i < num_gates -> 0 <= t < num_rows ->
  0 <= t < 2 ^ num_input_bits ->
  gate_clause (make_c num_gates) (make_v num_gates num_rows) (make_n num_gates)
    num_input_bits i t = Ok clause ->
  eval a clause = clause_value a num_input_bits i t.
Proof.
  intros Hi Ht Hpow H. unfold gate_clause in H.
  rewrite get_make_n in H by assumption. simpl in H.
  inv_bind H.
  apply (temp_loop_eval a) in Hx; try assumption;
    [|intros k Hk; apply In_range in Hk; lia].
  unfold clause_value, propagated.
  destruct (Z.ltb_spec i num_input_bits).
  - rewrite input_val_index_bit in H by lia. simpl in H.
    injection H as <-. simpl. now rewrite Hx.
  - injection H as <-. simpl. now rewrite Hx.
Qed.

Lemma gate_clause_total (num_gates num_rows num_input_bits i t : Z) :
  0 <= i < num_gates -> 0 <= t < num_rows ->
  0 <= t < 2 ^ num_input_bits ->
  exists clause,
    gate_clause (make_c num_gates) (make_v num_gates num_rows) (make_n num_gates)
      num_input_bits i t = Ok clause.
Proof.
  intros Hi Ht Hpow. unfold gate_clause.
  rewrite get_make_n by assumption. simpl.
  destruct (temp_loop_total num_gates num_rows i t (range 1 (i + 1))
              (BoolVal true) Hi Ht) as [temp ->];
    [intros k Hk; apply In_range in Hk; lia|].
  simpl. destruct (Z.ltb_spec i num_input_bits); [|eauto].
  rewrite input_val_index_bit by lia. simpl. eauto.
Qed.

Lemma eval_Eq_atom (a : string -> bool) (x : string) (rhs : formula) :
  eval a (Eq (Bool x) rhs) = true -> a x = eval a rhs.
Proof. simpl. intros H. now apply eqb_prop. Qed.

(** C1: for every line [i] and row [t] the formula contains the
    assertion [v[i][t] == rhs] whose right-hand side evaluates, under
    every assignment, to [n[i]] XOR the conjunction over count = 1..i of
    ([v[i-count][t]] OR NOT [c[i][i-count]]), XORed for
    [i < num_input_bits] with digit [i] (most significant first) of [t]
    written with [num_input_bits] binary digits; every satisfying
    assignment gives [v[i][t]] that value; for line 0 the conjunction is
    empty and true. *)
Theorem C1_gate_evolution (truth_table : list (list Z)) (num_gates : Z)
    (fs : list formula) (i t : Z) :
  constraints truth_table num_gates = Ok fs ->
  0 <= i < num_gates ->
  0 <= t < len truth_table ->
  exists rhs,
    In (Eq (Bool (v_name i t)) rhs) fs /\
    (forall a, eval a rhs = clause_value a (ceil_log2 (len truth_table)) i t) /\
    (forall a, satisfies a fs ->
               a (v_name i t) = clause_value a (ceil_log2 (len truth_table)) i t) /\
    (forall a, propagated a 0 t = true).
Proof.
  intros H Hi Ht.
  destruct (constraints_inv _ _ _ H) as (row0 & a & p & e & _ & _ & _ & He & ->).
  unfold evolution in He.
  destruct (for_add_inv _ _ _ i He) as [gs [Hgs Hincl]];
    [apply In_range; lia|].
  destruct (for_add_inv _ _ _ t Hgs) as [hs [Hhs Hincl']];
    [apply In_range; lia|].
  inv_bind Hhs. rewrite get2_make_v in Hhs by assumption.
  simpl in Hhs. injection Hhs as <-.
  assert (Hin : In (Eq (Bool (v_name i t)) x) (a ++ p ++ e)).
  { apply in_or_app. right. apply in_or_app. right.
    apply Hincl, Hincl'. now left. }
  assert (Hev : forall a0, eval a0 x
                 = clause_value a0 (ceil_log2 (len truth_table)) i t).
  { intros a0. eapply gate_clause_eval; eauto using row_below_pow2. }
  exists x. repeat split; try assumption.
  intros a0 Hsat. rewrite <- Hev. apply eval_Eq_atom. now apply Hsat.
Qed.

Lemma C1_gate_evolution_witness :
  exists rhs,
    In (Eq (Bool (v_name 1 1)) rhs) not_formula /\
    (forall a, eval a rhs = clause_value a (ceil_log2 (len not_table)) 1 1) /\
    (forall a, satisfies a not_formula ->
               a (v_name 1 1) = clause_value a (ceil_log2 (len not_table)) 1 1) /\
    (forall a, propagated a 0 1 = true).
Proof.
  apply (C1_gate_evolution not_table 2); [reflexivity | lia | unfold not_table, len; simpl; lia].
Defined.

(** C2: for every [i] and every [j >= i] the formula contains the
    assertion [c[i][j] == False], so no satisfying assignment makes
    [c[i][j]] true. *)
Theorem C2_acyclic (truth_table : list (list Z)) (num_gates : Z)
    (fs : list formula) (i j : Z) :
  constraints truth_table num_gates = Ok fs ->
  0 <= i < num_gates ->
  i <= j < num_gates ->
  In (Eq (Bool (c_name i j)) (BoolVal false)) fs /\
  (forall a, satisfies a fs -> a (c_name i j) = false).
Proof.
  intros H Hi Hj.
  destruct (constraints_inv _ _ _ H) as (row0 & a & p & e & _ & Ha & _ & _ & ->).
  unfold acyclic in Ha.
  destruct (for_add_inv _ _ _ i Ha) as [gs [Hgs Hincl]];
    [apply In_range; lia|].
  destruct (for_add_inv _ _ _ j Hgs) as [hs [Hhs Hincl']];
    [apply In_range; lia|].
  rewrite get2_make_c in Hhs by lia. simpl in Hhs. injection Hhs as <-.
  assert (Hin : In (Eq (Bool (c_name i j)) (BoolVal false)) (a ++ p ++ e)).
  { apply in_or_app. left. apply Hincl, Hincl'. now left. }
  split; [assumption|].
  intros a0 Hsat. now apply (eval_Eq_atom a0 _ (BoolVal false)), Hsat.
Qed.

Lemma C2_acyclic_witness :
  In (Eq (Bool (c_name 0 1)) (BoolVal false)) not_formula /\
  (forall a, satisfies a not_formula -> a (c_name 0 1) = false).
Proof.
  apply (C2_acyclic not_table 2); [reflexivity | lia | lia].
Defined.

(** The line a Python index into the [num_gates] lines denotes. *)
Lemma pinned_line (truth_table : list (list Z)) (num_gates : Z)
    (fs : list formula) (num_rows num_output_bits num_input_bits gate t : Z) :
  constraints truth_table num_gates = Ok fs ->
  dimensions truth_table = Ok (num_rows, num_output_bits, num_input_bits) ->
  num_gates - num_output_bits <= gate < num_gates ->
  0 <= t < num_rows ->
  exists bit,
    get2 truth_table t (gate - (num_gates - num_output_bits)) = Ok bit /\
    In (Eq (Bool (v_name (if 0 <=? gate then gate else num_gates + gate) t))
           (BoolVal (negb (bit =? 0)))) fs.
Proof.
  intros H Hd Hg Ht.
  destruct (constraints_inv _ _ _ H) as (row0 & a & p & e & Hr & _ & Hp & _ & ->).
  unfold dimensions in Hd. rewrite Hr in Hd. simpl in Hd.
  injection Hd as <- <- <-.
  unfold pin_outputs in Hp.
  destruct (for_add_inv _ _ _ gate Hp) as [gs [Hgs Hincl]];
    [apply In_range; lia|].
  destruct (for_add_inv _ _ _ t Hgs) as [hs [Hhs Hincl']];
    [apply In_range; lia|].
  inv_bind Hhs. rename x into bit.
  assert (Hv : get2 (make_v num_gates (len truth_table)) gate t
               = Ok (Bool (v_name (if 0 <=? gate then gate else num_gates + gate) t))).
  { destruct (Z.leb_spec 0 gate).
    - now rewrite get2_make_v by lia.
    - destruct (Z.lt_ge_cases gate (- Z.max num_gates 0)) as [Hout|Hin].
      + unfold get2, make_v in Hhs.
        rewrite py_get_map_range_out in Hhs by lia. discriminate.
      + unfold get2, make_v.
        rewrite py_get_map_range_neg by lia. simpl.
        now rewrite py_get_map_range by lia. }
  rewrite Hv in Hhs. simpl in Hhs.
  exists bit. split; [assumption|].
  apply in_or_app. right. apply in_or_app. left.
  apply Hincl, Hincl'.
  destruct (bit =? 0); injection Hhs as <-; now left.
Qed.

(** C3: for each of the last [num_output_bits] lines [gate] and each
    row [t] the formula contains the assertion that [v[gate][t]] equals
    the table's bit for row [t] and column
    [gate - (num_gates - num_output_bits)]: false for a stored 0, true
    for anything else. *)
Theorem C3_output_pinning (truth_table : list (list Z)) (num_gates : Z)
    (fs : list formula) (num_rows num_output_bits num_input_bits gate t : Z) :
  constraints truth_table num_gates = Ok fs ->
  dimensions truth_table = Ok (num_rows, num_output_bits, num_input_bits) ->
  0 <= gate ->
  num_gates - num_output_bits <= gate < num_gates ->
  0 <= t < num_rows ->
  exists bit,
    get2 truth_table t (gate - (num_gates - num_output_bits)) = Ok bit /\
    In (Eq (Bool (v_name gate t)) (BoolVal (negb (bit =? 0)))) fs /\
    (forall a, satisfies a fs -> a (v_name gate t) = negb (bit =? 0)).
Proof.
  intros H Hd Hg0 Hg Ht.
  destruct (pinned_line _ _ _ _ _ _ gate t H Hd Hg Ht) as [bit [Hbit Hin]].
  destruct (Z.leb_spec 0 gate); [|lia].
  exists bit. repeat split; try assumption.
  intros a0 Hsat. now apply (eval_Eq_atom a0 _ (BoolVal _)), Hsat.
Qed.

Lemma C3_output_pinning_witness :
  exists bit,
    get2 not_table 1 (1 - (2 - 1)) = Ok bit /\
    In (Eq (Bool (v_name 1 1)) (BoolVal (negb (bit =? 0)))) not_formula /\
    (forall a, satisfies a not_formula -> a (v_name 1 1) = negb (bit =? 0)).
Proof.
  apply (C3_output_pinning not_table 2 not_formula 2 1 1 1 1);
    [reflexivity | reflexivity | lia | lia | lia].
Defined.

(** The encoder is total on a rectangular, non-empty table whose output
    columns fit twice into the lines: no index leaves the arrays. *)
Lemma constraints_total (truth_table : list (list Z)) (num_gates : Z)
    (row0 : list Z) :
  py_get truth_table 0 = Ok row0 ->
  Forall (fun row => len row = len row0) truth_table ->
  len row0 <= 2 * num_gates ->
  exists fs, constraints truth_table num_gates = Ok fs.
Proof.
  intros Hr Hrect Hfit.
  unfold constraints, dimensions, assertions. rewrite Hr. simpl.
  assert (Hacy : exists a, acyclic (make_c num_gates) num_gates = Ok a).
  { apply for_add_total. intros i Hi. apply In_range in Hi.
    apply for_add_total. intros j Hj. apply In_range in Hj.
    rewrite get2_make_c by lia. simpl. eauto. }
  destruct Hacy as [a ->]. simpl.
  assert (Hpin : exists p,
             pin_outputs truth_table (make_v num_gates (len truth_table))
               num_gates (len truth_table) (len row0) = Ok p).
  { apply for_add_total. intros gate Hg. apply In_range in Hg.
    apply for_add_total. intros inp Hinp. apply In_range in Hinp.
    destruct (py_get_in_range truth_table inp Hinp) as [row [Hrow Hnth]].
    assert (Hlen : len row = len row0).
    { rewrite Forall_forall in Hrect. apply Hrect.
      eapply nth_error_In; eauto. }
    destruct (py_get_in_range row (gate - (num_gates - len row0)))
      as [bit [Hbit _]]; [lia|].
    unfold get2 at 1. rewrite Hrow. simpl. rewrite Hbit. simpl.
    assert (Hv : exists x, get2 (make_v num_gates (len truth_table)) gate inp
                           = Ok x).
    { destruct (Z.leb_spec 0 gate).
      - rewrite get2_make_v by lia. eauto.
      - unfold get2, make_v.
        rewrite py_get_map_range_neg by lia. simpl.
        rewrite py_get_map_range by lia. eauto. }
    destruct Hv as [x ->]. simpl.
    destruct (bit =? 0); eauto. }
  destruct Hpin as [p ->]. simpl.
  assert (Hevo : exists e,
             evolution (make_c num_gates) (make_v num_gates (len truth_table))
               (make_n num_gates) num_gates (len truth_table)
               (ceil_log2 (len truth_table)) = Ok e).
  { apply for_add_total. intros i Hi. apply In_range in Hi.
    apply for_add_total. intros inp Hinp. apply In_range in Hinp.
    destruct (gate_clause_total num_gates (len truth_table)
                (ceil_log2 (len truth_table)) i inp) as [clause ->];
      [lia | lia | now apply row_below_pow2 |].
    simpl. rewrite get2_make_v by lia. simpl. eauto. }
  destruct Hevo as [e ->]. simpl. eauto.
Qed.

(** ** Atom names and the result file *)

Lemma contains_append (ch : ascii) (s1 s2 : string) :
  contains ch (s1 ++ s2) = contains ch s1 || contains ch s2.
Proof.
  induction s1 as [|a s1 IH]; simpl; [reflexivity|].
  now rewrite IH, orb_assoc.
Qed.

Lemma contains_uint (ch : ascii) (d : uint) :
  numeral_char ch = false ->
  contains ch (NilEmpty.string_of_uint d) = false.
Proof.
  unfold numeral_char. cbn [contains]. intros H.
  repeat (apply orb_false_elim in H; destruct H as [? H]).
  induction d; cbn [NilEmpty.string_of_uint contains]; try reflexivity;
    rewrite IHd, orb_false_r; assumption.
Qed.

Lemma contains_str (ch : ascii) (z : Z) :
  numeral_char ch = false -> contains ch (str z) = false.
Proof.
  intros H. unfold str, NilZero.string_of_int, NilZero.string_of_uint.
  assert (Hm : Ascii.eqb "-" ch = false).
  { unfold numeral_char in H. cbn [contains] in H.
    repeat (apply orb_false_elim in H; destruct H as [? H]).
    assumption. }
  assert (H0 : Ascii.eqb "0" ch = false).
  { unfold numeral_char in H. cbn [contains] in H.
    apply orb_false_elim in H. tauto. }
  destruct (Z.to_int z) as [d|d].
  - destruct d; try (apply (contains_uint ch _ H)).
    cbn [contains]. now rewrite H0.
  - cbn [contains]. rewrite Hm. cbn [orb].
    destruct d; try (apply (contains_uint ch _ H)).
    cbn [contains]. now rewrite H0.
Qed.

Lemma contains_v_name (x : atom) : contains "v" (name x) = is_v x.
Proof.
  destruct x; unfold name, c_name, v_name, n_name;
    cbn [append contains is_v];
    repeat rewrite contains_append; cbn [contains];
    repeat rewrite contains_str by reflexivity; reflexivity.
Qed.

Lemma contains_LF_name (x : atom) : contains LF (name x) = false.
Proof.
  destruct x; unfold name, c_name, v_name, n_name;
    cbn [append contains];
    repeat rewrite contains_append; cbn [contains];
    repeat rewrite contains_str by reflexivity; reflexivity.
Qed.

Lemma concat_cons (h : string) (t : list string) :
  String.concat EmptyString (h :: t) = (h ++ String.concat EmptyString t)%string.
Proof.
  destruct t as [|h' t]; cbn [String.concat]; [now rewrite append_empty_r|].
  reflexivity.
Qed.

Lemma splitlines_aux_line (s rest cur : string) :
  contains LF s = false ->
  splitlines_aux (s ++ String LF rest) cur
  = (cur ++ s)%string :: splitlines_aux rest EmptyString.
Proof.
  revert cur. induction s as [|a s IH]; intros cur H.
  - cbn [append splitlines_aux]. rewrite Ascii.eqb_refl.
    now rewrite append_empty_r.
  - cbn [contains] in H. apply orb_false_elim in H. destruct H as [Ha Hs].
    cbn [append splitlines_aux]. rewrite Ha.
    rewrite IH by assumption. now rewrite append_assoc.
Qed.

Lemma atom_line_named (x : atom) (b : bool) :
  atom_line (name x, b)
  = if b && negb (is_v x) then (name x ++ NL)%string else EmptyString.
Proof.
  unfold atom_line. cbn [fst snd]. rewrite contains_v_name.
  destruct b; reflexivity.
Qed.

(** Reading back the result file gives the names of the atoms kept. *)
Lemma splitlines_model_text (am : list (atom * bool)) :
  splitlines (model_text (named am)) = map name (kept am).
Proof.
  unfold splitlines, model_text, kept.
  induction am as [|[x b] am IH]; [reflexivity|].
  cbn [named map]. rewrite concat_cons. cbn [fst snd].
  rewrite atom_line_named. cbn [filter fst snd].
  destruct (b && negb (is_v x)).
  - unfold NL. rewrite append_assoc. cbn [append].
    rewrite splitlines_aux_line by apply contains_LF_name.
    cbn [map append fst]. f_equal. exact IH.
  - cbn [append]. exact IH.
Qed.

Lemma In_kept (am : list (atom * bool)) (x : atom) :
  In x (kept am) <-> In (x, true) am /\ is_v x = false.
Proof.
  unfold kept. rewrite in_map_iff. split.
  - intros [[y b] [Hy Hin]]. cbn [fst] in Hy. subst y.
    apply filter_In in Hin. destruct Hin as [Hin Hb]. cbn [fst snd] in Hb.
    apply andb_prop in Hb. destruct Hb as [-> Hv].
    split; [assumption|]. now destruct (is_v x).
  - intros [Hin Hv]. exists (x, true). split; [reflexivity|].
    apply filter_In. split; [assumption|]. cbn [fst snd]. now rewrite Hv.
Qed.

(** ** The branches of [main] *)

Lemma main_bad_count (read_csv : string -> result (list (list Z)))
    (check : list formula -> option model) (argv : list string) (w : world) :
  len argv <> 4 ->
  main read_csv check argv w
  = (Ok tt, mkWorld (files w)
              (trace w ++ [EvPrint "Please input the correct number of arguments."])).
Proof.
  intros H. unfold main.
  destruct (Z.eqb_spec (len argv) 4); [contradiction|]. reflexivity.
Qed.

Lemma main_four (read_csv : string -> result (list (list Z)))
    (check : list formula -> option model)
    (prog filename num_gates out_file : string) (w : world) :
  main read_csv check [prog; filename; num_gates; out_file] w =
  match lookup filename (files w) with
  | None => (Ok tt, mkWorld (files w) (trace w ++ [EvPrint "That file does not exist."]))
  | Some _ =>
      if endswith filename ".csv" then
        (r <~ solve_table read_csv check filename num_gates out_file ;;
         let '(ok, num_in, num_out) := r in
         emit EvElapsed ;;;
         if ok then
           print "Drawing circuit to file..." ;;;
           draw_circ out_file out_file num_in num_out
         else ret tt) w
      else (Ok tt, mkWorld (files w) (trace w ++ [EvPrint "Please input a .csv file."]))
  end.
Proof.
  unfold main.
  change (len [prog; filename; num_gates; out_file] =? 4) with true. cbn iota.
  unfold bindM at 1. unfold lift at 1.
  change (py_get [prog; filename; num_gates; out_file] 1) with (Ok filename).
  cbn iota. unfold bindM at 1. unfold lift at 1.
  change (py_get [prog; filename; num_gates; out_file] 2) with (Ok num_gates).
  cbn iota. unfold bindM at 1. unfold lift at 1.
  change (py_get [prog; filename; num_gates; out_file] 3) with (Ok out_file).
  cbn iota. unfold bindM at 1. unfold isfile at 1.
  destruct (lookup filename (files w)); [|reflexivity].
  destruct (endswith filename ".csv"); reflexivity.
Qed.

(** ** Runs of [solve_table] *)

Section Runs.

Variable read_csv : string -> result (list (list Z)).
Variable check : list formula -> option model.

Lemma solve_table_run (filename num_gates out_file text : string)
    (truth_table : list (list Z)) (g num_rows num_output_bits num_input_bits : Z)
    (w : world) :
  lookup filename (files w) = Some text ->
  read_csv text = Ok truth_table ->
  int num_gates = Ok g ->
  dimensions truth_table = Ok (num_rows, num_output_bits, num_input_bits) ->
  solve_table read_csv check filename num_gates out_file w =
  match assertions truth_table g num_rows num_output_bits num_input_bits with
  | Raise e => (Raise e, mkWorld (files w) (trace w ++ setup_events))
  | Ok fs =>
      match check fs with
      | Some m =>
          (Ok (true, num_input_bits, num_output_bits),
           mkWorld ((out_file, model_text m) :: files w)
                   (trace w ++ check_events fs ++
                    [EvPrint "Model is satisfiable!";
                     EvWrite out_file (model_text m)]))
      | None =>
          (Ok (false, 0, 0),
           mkWorld (files w)
                   (trace w ++ check_events fs ++
                    [EvPrint "Model is not satisfiable"]))
      end
  end.
Proof.
  intros Hf Hr Hg Hd.
  unfold solve_table, bindM, emit, print, emit, read_file, lift, write_file, ret.
  cbn [files trace]. rewrite Hf, Hr, Hg, Hd.
  unfold check_events, setup_events.
  destruct (assertions truth_table g num_rows num_output_bits num_input_bits)
    as [fs|e]; cbn [files trace].
  - destruct (check fs) as [m|]; cbn [files trace];
      repeat rewrite <- app_assoc; reflexivity.
  - repeat rewrite <- app_assoc; reflexivity.
Qed.

Lemma range_cons (a b : Z) : a < b -> range a b = a :: range (a + 1) b.
Proof.
  intros H. unfold range.
  replace (Z.to_nat (b - a)) with (S (Z.to_nat (b - (a + 1)))) by lia.
  cbn [seq map]. f_equal; [lia|].
  rewrite <- seq_shift, map_map. apply map_ext. intros k. lia.
Qed.

Lemma acyclic_total (num_gates : Z) :
  exists a, acyclic (make_c num_gates) num_gates = Ok a.
Proof.
  apply for_add_total. intros i Hi. apply In_range in Hi.
  apply for_add_total. intros j Hj. apply In_range in Hj.
  rewrite get2_make_c by lia. simpl. eauto.
Qed.

(** With more than twice as many output columns as lines, the first
    pinned index leaves the array [v]. *)
Lemma assertions_overflow (truth_table : list (list Z)) (g : Z) (row0 : list Z)
    (num_input_bits : Z) :
  py_get truth_table 0 = Ok row0 ->
  0 < len row0 ->
  2 * g < len row0 ->
  assertions truth_table g (len truth_table) (len row0) num_input_bits
  = Raise IndexError.
Proof.
  intros Hr Hpos Hbig. unfold assertions.
  destruct (acyclic_total g) as [a ->]. simpl.
  assert (Hrows : 0 < len truth_table).
  { unfold py_get in Hr. destruct truth_table; [discriminate|].
    unfold len. simpl. lia. }
  assert (Hpin : pin_outputs truth_table (make_v g (len truth_table)) g
                   (len truth_table) (len row0) = Raise IndexError).
  { unfold pin_outputs. rewrite range_cons by lia.
    apply for_add_raise_first.
    rewrite range_cons by lia. apply for_add_raise_first.
    unfold get2 at 1. rewrite Hr. simpl.
    destruct (py_get_in_range row0 (g - len row0 - (g - len row0)))
      as [bit [-> _]]; [lia|]. simpl.
    unfold get2, make_v. rewrite py_get_map_range_out by lia. reflexivity. }
  now rewrite Hpin.
Qed.

(** C4 (as the code behaves): [solve_table] compares the gate count with
    nothing.  With fewer lines than output columns, but at least half as
    many, it builds the formula, pinning each column whose line index
    falls below zero onto line [num_gates + index], and invokes the
    oracle; with fewer than half as many lines (and at least one output
    column) the first such index raises [IndexError] before the oracle
    is invoked and nothing is written. *)
Theorem C4_gate_count_unchecked (filename num_gates out_file text : string)
    (truth_table : list (list Z)) (g : Z) (row0 : list Z) (w : world) :
  lookup filename (files w) = Some text ->
  read_csv text = Ok truth_table ->
  int num_gates = Ok g ->
  py_get truth_table 0 = Ok row0 ->
  Forall (fun row => len row = len row0) truth_table ->
  g < len row0 ->
  (len row0 <= 2 * g ->
   exists fs r w',
     constraints truth_table g = Ok fs /\
     solve_table read_csv check filename num_gates out_file w = (Ok r, w') /\
     (exists rest, trace w' = trace w ++ check_events fs ++ rest)%list /\
     (forall gate t, g - len row0 <= gate < 0 -> 0 <= t < len truth_table ->
        exists bit,
          get2 truth_table t (gate - (g - len row0)) = Ok bit /\
          In (Eq (Bool (v_name (g + gate) t)) (BoolVal (negb (bit =? 0)))) fs)) /\
  (0 < len row0 -> 2 * g < len row0 ->
   solve_table read_csv check filename num_gates out_file w =
   (Raise IndexError, mkWorld (files w) (trace w ++ setup_events))).
Proof.
  intros Hf Hr Hg H0 Hrect Hlt.
  assert (Hd : dimensions truth_table
               = Ok (len truth_table, len row0, ceil_log2 (len truth_table))).
  { unfold dimensions. now rewrite H0. }
  rewrite (solve_table_run _ _ _ _ _ _ _ _ _ _ Hf Hr Hg Hd).
  split.
  - intros Hfit.
    destruct (constraints_total _ _ _ H0 Hrect Hfit) as [fs Hfs].
    assert (Ha : assertions truth_table g (len truth_table) (len row0)
                   (ceil_log2 (len truth_table)) = Ok fs).
    { unfold constraints in Hfs. rewrite Hd in Hfs. exact Hfs. }
    rewrite Ha. exists fs.
    assert (Hwrap : forall gate t, g - len row0 <= gate < 0 ->
              0 <= t < len truth_table ->
              exists bit,
                get2 truth_table t (gate - (g - len row0)) = Ok bit /\
                In (Eq (Bool (v_name (g + gate) t))
                       (BoolVal (negb (bit =? 0)))) fs).
    { intros gate t Hgate Ht.
      destruct (pinned_line _ _ _ _ _ _ gate t Hfs Hd) as [bit [Hb Hin]];
        [lia | lia |].
      destruct (Z.leb_spec 0 gate); [lia|]. eauto. }
    destruct (check fs) as [m|]; do 2 eexists;
      (split; [exact Hfs|]); (split; [reflexivity|]);
      (split; [cbn [trace]; eexists; reflexivity | exact Hwrap]).
  - intros Hpos Hbig.
    rewrite (assertions_overflow _ _ _ _ H0) by lia. reflexivity.
Qed.

Lemma constraints_dims (truth_table : list (list Z)) (g : Z) (fs : list formula) :
  constraints truth_table g = Ok fs ->
  exists num_rows num_output_bits num_input_bits,
    dimensions truth_table = Ok (num_rows, num_output_bits, num_input_bits) /\
    assertions truth_table g num_rows num_output_bits num_input_bits = Ok fs.
Proof.
  unfold constraints. intros H. inv_bind H.
  destruct x as [[num_rows num_output_bits] num_input_bits]. eauto.
Qed.

Lemma lookup_head (path text : string) (fs : list (string * string)) :
  lookup path ((path, text) :: fs) = Some text.
Proof. cbn [lookup]. now rewrite String.eqb_refl. Qed.

(** C5: when the oracle does not answer sat, [solve_table] returns
    [(False, 0, 0)] without raising and leaves every file as it was, and
    [main] returns without calling [draw_circ]. *)
Theorem C5_unsat_is_a_result (prog filename num_gates out_file text : string)
    (truth_table : list (list Z)) (g : Z) (fs : list formula) (w : world) :
  lookup filename (files w) = Some text ->
  read_csv text = Ok truth_table ->
  int num_gates = Ok g ->
  constraints truth_table g = Ok fs ->
  check fs = None ->
  endswith filename ".csv" = true ->
  let done := (check_events fs ++ [EvPrint "Model is not satisfiable"])%list in
  solve_table read_csv check filename num_gates out_file w
  = (Ok (false, 0, 0), mkWorld (files w) (trace w ++ done)) /\
  main read_csv check [prog; filename; num_gates; out_file] w
  = (Ok tt, mkWorld (files w) (trace w ++ done ++ [EvElapsed])) /\
  existsb is_write (done ++ [EvElapsed]) = false /\
  existsb (is_call "draw_circ") (done ++ [EvElapsed]) = false.
Proof.
  intros Hf Hr Hg Hc Hn Hext done.
  destruct (constraints_dims _ _ _ Hc) as (nr & nout & nin & Hd & Ha).
  assert (Hrun : solve_table read_csv check filename num_gates out_file w
                 = (Ok (false, 0, 0), mkWorld (files w) (trace w ++ done))).
  { rewrite (solve_table_run _ _ _ _ _ _ _ _ _ _ Hf Hr Hg Hd).
    now rewrite Ha, Hn. }
  split; [exact Hrun|]. split.
  - rewrite main_four, Hf, Hext. unfold bindM at 1. rewrite Hrun.
    unfold bindM, emit, ret. cbn [files trace].
    now rewrite <- app_assoc.
  - subst done. unfold check_events, setup_events.
    split; reflexivity.
Qed.

(** C6: after a sat answer the result file holds, one per line and in
    the model's order, exactly the names of the atoms of the [c] and [n]
    families that the model makes true: no atom of the [v] family and no
    atom the model makes false. *)
Theorem C6_result_file (filename num_gates out_file text : string)
    (truth_table : list (list Z)) (g : Z) (fs : list formula)
    (am : list (atom * bool)) (w : world) :
  lookup filename (files w) = Some text ->
  read_csv text = Ok truth_table ->
  int num_gates = Ok g ->
  constraints truth_table g = Ok fs ->
  check fs = Some (named am) ->
  exists r w' written,
    solve_table read_csv check filename num_gates out_file w = (Ok r, w') /\
    lookup out_file (files w') = Some written /\
    splitlines written = map name (kept am) /\
    (forall x, In x (kept am) <-> In (x, true) am /\ is_v x = false).
Proof.
  intros Hf Hr Hg Hc Hm.
  destruct (constraints_dims _ _ _ Hc) as (nr & nout & nin & Hd & Ha).
  rewrite (solve_table_run _ _ _ _ _ _ _ _ _ _ Hf Hr Hg Hd).
  rewrite Ha, Hm.
  do 3 eexists. split; [reflexivity|]. cbn [files].
  split; [apply lookup_head|].
  split; [apply splitlines_model_text | apply In_kept].
Qed.

End Runs.

(** ** Runs on concrete tables *)

Lemma C4_gate_count_unchecked_witness :
  (len [1; 1] <= 2 * 1 ->
   exists fs r w',
     constraints wide_table 1 = Ok fs /\
     solve_table (reader_of "t" wide_table) (oracle_with wide_model)
       "a.csv" "1" "out" one_table = (Ok r, w') /\
     (exists rest, trace w' = trace one_table ++ check_events fs ++ rest)%list /\
     (forall gate t, 1 - len [1; 1] <= gate < 0 -> 0 <= t < len wide_table ->
        exists bit,
          get2 wide_table t (gate - (1 - len [1; 1])) = Ok bit /\
          In (Eq (Bool (v_name (1 + gate) t)) (BoolVal (negb (bit =? 0)))) fs)) /\
  (0 < len [1; 1] -> 2 * 1 < len [1; 1] ->
   solve_table (reader_of "t" wide_table) (oracle_with wide_model)
     "a.csv" "1" "out" one_table =
   (Raise IndexError, mkWorld (files one_table) (trace one_table ++ setup_events))).
Proof.
  apply (C4_gate_count_unchecked (reader_of "t" wide_table)
           (oracle_with wide_model) "a.csv" "1" "out" "t" wide_table 1 [1; 1]
           one_table);
    [reflexivity | reflexivity | reflexivity | reflexivity
    | repeat constructor | unfold len; simpl; lia].
Defined.

(** C4, as stated, fails: one line is requested for a table with two
    output columns, and [solve_table] invokes the oracle and returns a
    satisfiable result. *)
Lemma C4_counterexample :
  (1 <? len [1; 1]) = true /\
  fst (solve_table (reader_of "t" wide_table) (oracle_with wide_model)
         "a.csv" "1" "out" one_table) = Ok (true, 0, 2) /\
  existsb is_check
    (trace (snd (solve_table (reader_of "t" wide_table) (oracle_with wide_model)
                   "a.csv" "1" "out" one_table))) = true.
Proof. vm_compute. auto. Qed.

Lemma C5_unsat_is_a_result_witness :
  let done := (check_events not_formula ++ [EvPrint "Model is not satisfiable"])%list in
  solve_table (reader_of "t" not_table) (fun _ => None) "a.csv" "2" "out" one_table
  = (Ok (false, 0, 0), mkWorld (files one_table) (trace one_table ++ done)) /\
  main (reader_of "t" not_table) (fun _ => None)
    ["csolver.py"; "a.csv"; "2"; "out"]%string one_table
  = (Ok tt, mkWorld (files one_table)
              (trace one_table ++ done ++ [EvElapsed])) /\
  existsb is_write (done ++ [EvElapsed]) = false /\
  existsb (is_call "draw_circ") (done ++ [EvElapsed]) = false.
Proof.
  apply (C5_unsat_is_a_result (reader_of "t" not_table) (fun _ => None)
           "csolver.py" "a.csv" "2" "out" "t" not_table 2 not_formula one_table);
    reflexivity.
Defined.

(** A model of the NOT table with two lines: line 1 is a NOT controlled
    by line 0. *)
Lemma not_model_satisfies :
  oracle_with
    (named [(AtomC 0 0, false); (AtomC 0 1, false); (AtomC 1 0, true);
            (AtomC 1 1, false); (AtomN 0, true); (AtomN 1, true);
            (AtomV 0 0, false); (AtomV 0 1, true); (AtomV 1 0, true);
            (AtomV 1 1, false)]) not_formula
  = Some (named [(AtomC 0 0, false); (AtomC 0 1, false); (AtomC 1 0, true);
            (AtomC 1 1, false); (AtomN 0, true); (AtomN 1, true);
            (AtomV 0 0, false); (AtomV 0 1, true); (AtomV 1 0, true);
            (AtomV 1 1, false)]).
Proof. vm_compute. reflexivity. Qed.

Lemma C6_result_file_witness :
  let am := [(AtomC 0 0, false); (AtomC 0 1, false); (AtomC 1 0, true);
             (AtomC 1 1, false); (AtomN 0, true); (AtomN 1, true);
             (AtomV 0 0, false); (AtomV 0 1, true); (AtomV 1 0, true);
             (AtomV 1 1, false)] in
  exists r w' written,
    solve_table (reader_of "t" not_table) (oracle_with (named am))
      "a.csv" "2" "out" one_table = (Ok r, w') /\
    lookup "out" (files w') = Some written /\
    splitlines written = map name (kept am) /\
    (forall x, In x (kept am) <-> In (x, true) am /\ is_v x = false).
Proof.
  intros am.
  apply (C6_result_file (reader_of "t" not_table) (oracle_with (named am))
           "a.csv" "2" "out" "t" not_table 2 not_formula am one_table);
    [reflexivity | reflexivity | reflexivity | reflexivity
    | exact not_model_satisfies].
Defined.

(** ** The decoder *)

Lemma fold_max_ge (l : list Z) (x : Z) :
  x <= fold_left Z.max l x /\
  (forall k, In k l -> k <= fold_left Z.max l x) /\
  (fold_left Z.max l x = x \/ In (fold_left Z.max l x) l).
Proof.
  revert x. induction l as [|y l IH]; intros x; cbn [fold_left].
  - repeat split; [lia | intros k [] | now left].
  - destruct (IH (Z.max x y)) as (H1 & H2 & H3). repeat split.
    + lia.
    + intros k [<-|Hk]; [lia | now apply H2].
    + destruct H3 as [H3|H3]; [|right; now right].
      rewrite H3. destruct (Z.max_spec x y) as [[_ ->]|[_ ->]];
        [right; now left | now left].
Qed.

Lemma py_max_spec (l : list Z) (m : Z) :
  py_max l = Ok m -> In m l /\ (forall k, In k l -> k <= m).
Proof.
  destruct l as [|x l]; [discriminate|].
  cbn [py_max]. intros [= <-].
  destruct (fold_max_ge l x) as (H1 & H2 & H3). split.
  - destruct H3 as [->|H3]; [now left | now right].
  - intros k [<-|Hk]; [assumption | now apply H2].
Qed.

Lemma map_r_length {A B} (f : A -> result B) (l : list A) (r : list B) :
  map_r f l = Ok r -> List.length r = List.length l.
Proof.
  revert r. induction l as [|x l IH]; intros r H; cbn [map_r] in H.
  - now injection H as <-.
  - inv_bind H. inv_bind H. injection H as <-.
    cbn [List.length]. f_equal. now apply IH.
Qed.

Lemma map_r_nth {A B} (f : A -> result B) (l : list A) (r : list B)
    (k : nat) (x : A) :
  map_r f l = Ok r -> nth_error l k = Some x ->
  exists y, f x = Ok y /\ nth_error r k = Some y.
Proof.
  revert r k. induction l as [|a l IH]; intros r k H Hk.
  - destruct k; discriminate.
  - cbn [map_r] in H. inv_bind H. inv_bind H. injection H as <-.
    destruct k as [|k]; cbn [nth_error] in *.
    + injection Hk as <-. eauto.
    + eapply IH; eauto.
Qed.

Lemma render_inv (lines : list string) (num_in num_out : Z) (d : drawing) :
  render lines num_in num_out = Ok d ->
  exists nots cs circ idx m,
    map_r (field 1) (sort lines) = Ok idx /\
    py_max idx = Ok m /\
    matrix nots cs (m + 1) = Ok circ /\
    dim d = m + 1 /\
    map_r (row_text circ (m + 1) num_in num_out) (range 0 (m + 1)) = Ok (rows d).
Proof.
  unfold render, parse. intros H.
  inv_bind H. inv_bind Hx. inv_bind Hx. inv_bind Hx. inv_bind Hx. inv_bind Hx.
  injection Hx as <-.
  inv_bind H. inv_bind H. inv_bind H. injection H as <-.
  cbn [dim rows]. exists x0, x1, x, x3, x4. auto.
Qed.

(** C7 (as the code behaves): the grid dimension is the largest line
    index named in the atom file plus one, and the drawing has that many
    lines; [draw_circ] is given no gate count to compare it with. *)
Theorem C7_grid_dimension (lines : list string) (num_in num_out : Z)
    (d : drawing) :
  render lines num_in num_out = Ok d ->
  exists idx m,
    map_r (field 1) (sort lines) = Ok idx /\
    In m idx /\
    (forall k, In k idx -> k <= m) /\
    dim d = m + 1 /\
    List.length (rows d) = Z.to_nat (dim d).
Proof.
  intros H.
  destruct (render_inv _ _ _ _ H) as (nots & cs & circ & idx & m &
                                      Hidx & Hmax & _ & Hdim & Hrows).
  destruct (py_max_spec _ _ Hmax) as [Hin Hle].
  exists idx, m. repeat split; try assumption.
  rewrite (map_r_length _ _ _ Hrows), length_range, Hdim. f_equal. lia.
Qed.

Lemma C7_grid_dimension_witness :
  exists idx m,
    map_r (field 1) (sort ["n_0"; "c_2_0"; "n_1"]%string) = Ok idx /\
    In m idx /\
    (forall k, In k idx -> k <= m) /\
    dim {| dim := 3;
           rows := ["|i> -X-----o-" ++ NL; "|a> -X--X--|-" ++ NL;
                    "|o> -------X-" ++ NL]%string;
           counts := ["NOT gates: 3" ++ NL; "CNOT gates: 1" ++ NL]%string |}
    = m + 1 /\
    List.length
      (rows {| dim := 3;
               rows := ["|i> -X-----o-" ++ NL; "|a> -X--X--|-" ++ NL;
                        "|o> -------X-" ++ NL]%string;
               counts := ["NOT gates: 3" ++ NL; "CNOT gates: 1" ++ NL]%string |})
    = Z.to_nat 3.
Proof.
  apply (C7_grid_dimension ["n_0"; "c_2_0"; "n_1"]%string 1 1).
  vm_compute. reflexivity.
Defined.

(** C7, as stated, fails: two lines are requested, the model makes only
    [n_0] true among the [c] and [n] atoms, and the program draws a
    circuit of one line and ends normally. *)
Lemma C7_counterexample :
  int "2" = Ok 2 /\
  oracle_with unit_model
    (match constraints unit_table 2 with Ok fs => fs | Raise _ => [] end)
  = Some unit_model /\
  fst (exit_status (reader_of "t" unit_table) (oracle_with unit_model)
         ["csolver.py"; "a.csv"; "2"; "out"]%string one_table) = 0 /\
  lookup "out"
    (files (snd (exit_status (reader_of "t" unit_table) (oracle_with unit_model)
                   ["csolver.py"; "a.csv"; "2"; "out"]%string one_table)))
  = Some (drawing_text {| dim := 1;
                          rows := ["|o> -X-" ++ NL]%string;
                          counts := ["NOT gates: 1" ++ NL]%string |}) /\
  1 <> 2.
Proof. vm_compute. repeat split; discriminate. Qed.

(** C8 (as the code behaves): a line that is both among the first
    [num_in] and among the last [num_out] is labelled as an input. *)
Theorem C8_input_label_first (lines : list string) (num_in num_out : Z)
    (d : drawing) (i : Z) :
  render lines num_in num_out = Ok d ->
  0 <= i < dim d ->
  i < num_in ->
  dim d - num_out <= i ->
  label i (dim d) num_in num_out = "|i> "%string /\
  exists cells,
    nth_error (rows d) (Z.to_nat i) = Some ("|i> " ++ cells ++ NL)%string.
Proof.
  intros H Hi Hin Hout.
  assert (Hl : forall n, label i n num_in num_out = "|i> "%string).
  { intros n. unfold label. destruct (Z.ltb_spec i num_in); [reflexivity | lia]. }
  split; [apply Hl|].
  destruct (render_inv _ _ _ _ H) as (nots & cs & circ & idx & m &
                                      _ & _ & _ & Hdim & Hrows).
  rewrite Hdim in Hi.
  destruct (map_r_nth _ _ _ (Z.to_nat i) i Hrows) as [y [Hy Hn]].
  { rewrite nth_error_range by lia. f_equal. lia. }
  unfold row_text in Hy. inv_bind Hy. injection Hy as <-.
  rewrite Hl in Hn. eauto.
Qed.

Lemma C8_input_label_first_witness :
  label 0 (dim {| dim := 1; rows := ["|i> -X-" ++ NL]%string;
                  counts := ["NOT gates: 1" ++ NL]%string |}) 1 1
  = "|i> "%string /\
  exists cells,
    nth_error (rows {| dim := 1; rows := ["|i> -X-" ++ NL]%string;
                       counts := ["NOT gates: 1" ++ NL]%string |})
              (Z.to_nat 0)
    = Some ("|i> " ++ cells ++ NL)%string.
Proof.
  apply (C8_input_label_first ["n_0"]%string 1 1);
    [vm_compute; reflexivity | cbn [dim]; lia | lia | cbn [dim]; lia].
Defined.

(** C8, as stated, fails: with one input, one output and one line, line
    0 satisfies both predicates and the program labels it as an input. *)
Lemma C8_counterexample :
  oracle_with wire_model
    (match constraints wire_table 1 with Ok fs => fs | Raise _ => [] end)
  = Some wire_model /\
  lookup "out"
    (files (snd (exit_status (reader_of "t" wire_table) (oracle_with wire_model)
                   ["csolver.py"; "a.csv"; "1"; "out"]%string one_table)))
  = Some (drawing_text {| dim := 1;
                          rows := ["|i> -X-" ++ NL]%string;
                          counts := ["NOT gates: 1" ++ NL]%string |}) /\
  render ["n_0"]%string 1 1
  = Ok {| dim := 1; rows := ["|i> -X-" ++ NL]%string;
          counts := ["NOT gates: 1" ++ NL]%string |} /\
  (0 <? 1) = true /\ (0 >=? 1 - 1) = true /\ 1 + 1 > 1 /\
  label 0 1 1 1 <> "|o> "%string.
Proof. vm_compute. repeat split; discriminate. Qed.

(** C10: on an atom file without lines [draw_circ] raises [ValueError]
    (the maximum of an empty sequence); it writes no file and prints
    nothing. *)
Theorem C10_empty_atom_file (infile outfile text : string) (num_in num_out : Z)
    (w : world) :
  lookup infile (files w) = Some text ->
  splitlines text = [] ->
  render (splitlines text) num_in num_out = Raise ValueError /\
  draw_circ infile outfile num_in num_out w
  = (Raise ValueError, mkWorld (files w) (trace w ++ [EvCall "draw_circ"])).
Proof.
  intros Hf Hs. rewrite Hs. split; [reflexivity|].
  unfold draw_circ, bindM, emit, read_file, lift. cbn [files trace].
  rewrite Hf, Hs. reflexivity.
Qed.

Lemma C10_empty_atom_file_witness :
  render (splitlines EmptyString) 0 1 = Raise ValueError /\
  draw_circ "out" "out" 0 1 (world0 [("out", EmptyString)]%string)
  = (Raise ValueError,
     mkWorld (files (world0 [("out", EmptyString)]%string))
             (trace (world0 [("out", EmptyString)]%string) ++ [EvCall "draw_circ"])).
Proof.
  apply (C10_empty_atom_file "out" "out" EmptyString 0 1 (world0 [("out", EmptyString)]%string));
    reflexivity.
Defined.

(** ** The decoder on the files [solve_table] writes *)

Lemma split_aux_last (sep : ascii) (s cur : string) :
  contains sep s = false -> split_aux sep s cur = [(cur ++ s)%string].
Proof.
  revert cur. induction s as [|a s IH]; intros cur H.
  - cbn [split_aux]. now rewrite append_empty_r.
  - cbn [contains] in H. apply orb_false_elim in H. destruct H as [Ha Hs].
    cbn [split_aux]. rewrite Ha, IH by assumption. now rewrite append_assoc.
Qed.

Lemma split_aux_piece (sep : ascii) (s rest cur : string) :
  contains sep s = false ->
  split_aux sep (s ++ String sep rest) cur
  = (cur ++ s)%string :: split_aux sep rest EmptyString.
Proof.
  revert cur. induction s as [|a s IH]; intros cur H.
  - cbn [append split_aux]. rewrite Ascii.eqb_refl. now rewrite append_empty_r.
  - cbn [contains] in H. apply orb_false_elim in H. destruct H as [Ha Hs].
    cbn [append split_aux]. rewrite Ha, IH by assumption.
    now rewrite append_assoc.
Qed.

Lemma split_c_name (i j : Z) :
  split "_" (c_name i j) = ["c"; str i; str j]%string.
Proof.
  unfold split, c_name. cbn [append split_aux Ascii.eqb Bool.eqb].
  rewrite split_aux_piece by (apply contains_str; reflexivity).
  rewrite split_aux_last by (apply contains_str; reflexivity).
  reflexivity.
Qed.

Lemma split_n_name (i : Z) : split "_" (n_name i) = ["n"; str i]%string.
Proof.
  unfold split, n_name. cbn [append split_aux Ascii.eqb Bool.eqb].
  rewrite split_aux_last by (apply contains_str; reflexivity).
  reflexivity.
Qed.

Lemma int_str (z : Z) : int (str z) = Ok z.
Proof.
  unfold int, str. rewrite NilZero.isi.
  - now rewrite DecimalZ.of_to.
  - destruct z; cbn [Z.to_int]; try discriminate.
    intros [= H]. now apply DecimalPos.Unsigned.to_uint_nonnil in H.
  - destruct z; cbn [Z.to_int]; try discriminate.
    intros [= H]. now apply DecimalPos.Unsigned.to_uint_nonnil in H.
Qed.

Lemma field1_name (x : atom) :
  circuit_atom x = true -> field 1 (name x) = Ok (line_of x).
Proof.
  destruct x as [i j|i t|i]; cbn [circuit_atom]; intros H; [| discriminate |];
    unfold field; cbn [name line_of].
  - rewrite split_c_name. change (py_get ["c"; str i; str j]%string 1) with (Ok (str i)).
    cbn [bind]. apply int_str.
  - rewrite split_n_name. change (py_get ["n"; str i]%string 1) with (Ok (str i)).
    cbn [bind]. apply int_str.
Qed.

Lemma field2_c_name (i j : Z) : field 2 (c_name i j) = Ok j.
Proof.
  unfold field. rewrite split_c_name.
  change (py_get ["c"; str i; str j]%string 2) with (Ok (str j)).
  cbn [bind]. apply int_str.
Qed.

Lemma starts_with_name (ch : ascii) (x : atom) :
  circuit_atom x = true ->
  starts_with ch (name x)
  = Ok (match x with
        | AtomC _ _ => Ascii.eqb "c" ch
        | AtomN _ => Ascii.eqb "n" ch
        | AtomV _ _ => Ascii.eqb "v" ch
        end).
Proof. destruct x; intros H; reflexivity. Qed.

Lemma In_insert_sorted (x y : string) (l : list string) :
  In y (insert_sorted x l) <-> y = x \/ In y l.
Proof.
  induction l as [|z l IH]; cbn [insert_sorted].
  - cbn [In]. intuition congruence.
  - destruct (String.leb x z); cbn [In]; [intuition congruence|].
    rewrite IH. intuition congruence.
Qed.

Lemma In_sort (y : string) (l : list string) : In y (sort l) <-> In y l.
Proof.
  unfold sort. induction l as [|x l IH]; cbn [fold_right]; [tauto|].
  rewrite In_insert_sorted, IH. cbn [In]. intuition congruence.
Qed.

Lemma filter_r_total {A} (p : A -> result bool) (q : A -> bool) (l : list A) :
  (forall x, In x l -> p x = Ok (q x)) ->
  filter_r p l = Ok (filter q l).
Proof.
  induction l as [|x l IH]; intros H; cbn [filter_r filter]; [reflexivity|].
  rewrite (H x) by now left. cbn [bind].
  rewrite IH by (intros; apply H; now right). reflexivity.
Qed.

Lemma map_r_total {A B} (f : A -> result B) (g : A -> B) (l : list A) :
  (forall x, In x l -> f x = Ok (g x)) ->
  map_r f l = Ok (map g l).
Proof.
  induction l as [|x l IH]; intros H; cbn [map_r map]; [reflexivity|].
  rewrite (H x) by now left. cbn [bind].
  rewrite IH by (intros; apply H; now right). reflexivity.
Qed.


Lemma for_acc_invariant {A S} (Inv : S -> Prop) (xs : list A) (s : S)
    (body : S -> A -> result S) :
  (forall s x, In x xs -> Inv s -> exists s', body s x = Ok s' /\ Inv s') ->
  Inv s ->
  exists s', for_acc xs s body = Ok s' /\ Inv s'.
Proof.
  revert s. induction xs as [|x xs IH]; intros s H Hs; cbn [for_acc]; [eauto|].
  destruct (H s x) as [s1 [-> Hs1]]; [now left | assumption |]. cbn [bind].
  apply IH; [|assumption]. intros s2 y Hy. apply H. now right.
Qed.

Lemma length_replace_nth {A} (l : list A) (p : nat) (x : A) :
  List.length (replace_nth l p x) = List.length l.
Proof.
  revert p. induction l as [|y l IH]; intros p; [reflexivity|].
  destruct p; cbn [replace_nth List.length]; [reflexivity|]. now rewrite IH.
Qed.

Lemma Forall_replace_nth {A} (P : A -> Prop) (l : list A) (p : nat) (x : A) :
  Forall P l -> P x -> Forall P (replace_nth l p x).
Proof.
  intros Hl Hx. revert p. induction Hl as [|y l Hy Hl IH]; intros p.
  - constructor.
  - destruct p; cbn [replace_nth]; constructor; auto.
Qed.

Lemma py_set_in_range {A} (l : list A) (k : Z) (x : A) :
  0 <= k < len l -> py_set l k x = Ok (replace_nth l (Z.to_nat k) x).
Proof.
  unfold len, py_set, norm_index. intros Hk.
  destruct (Z.leb_spec 0 k); [|lia].
  destruct (Z.ltb_spec k (Z.of_nat (List.length l))); [|lia]. reflexivity.
Qed.

Lemma square_row (n : nat) (circ : grid) (i : Z) :
  square n circ -> 0 <= i < Z.of_nat n ->
  exists row, py_get circ i = Ok row /\ List.length row = n.
Proof.
  intros [Hlen Hrows] Hi.
  destruct (py_get_in_range circ i) as [row [Hrow Hnth]];
    [unfold len; lia|].
  exists row. split; [assumption|].
  rewrite Forall_forall in Hrows. apply Hrows. eapply nth_error_In; eauto.
Qed.

Lemma get2_square (n : nat) (circ : grid) (i j : Z) :
  square n circ -> 0 <= i < Z.of_nat n -> 0 <= j < Z.of_nat n ->
  exists cell, get2 circ i j = Ok cell.
Proof.
  intros Hsq Hi Hj.
  destruct (square_row n circ i Hsq Hi) as [row [Hrow Hlen]].
  unfold get2. rewrite Hrow. cbn [bind].
  destruct (py_get_in_range row j) as [cell [Hcell _]];
    [unfold len; lia | eauto].
Qed.

Lemma set2_square (n : nat) (circ : grid) (i j : Z) (x : string) :
  square n circ -> 0 <= i < Z.of_nat n -> 0 <= j < Z.of_nat n ->
  exists circ', set2 circ i j x = Ok circ' /\ square n circ'.
Proof.
  intros Hsq Hi Hj.
  destruct (square_row n circ i Hsq Hi) as [row [Hrow Hlen]].
  destruct Hsq as [Hl Hrows].
  unfold set2. rewrite Hrow. cbn [bind].
  rewrite py_set_in_range by (unfold len; lia). cbn [bind].
  rewrite py_set_in_range by (unfold len; lia).
  eexists. split; [reflexivity|]. split.
  - now rewrite length_replace_nth.
  - apply Forall_replace_nth; [assumption|]. now rewrite length_replace_nth.
Qed.

Lemma square_blank (n : Z) : square (Z.to_nat n) (blank n).
Proof.
  unfold square, blank. split.
  - rewrite length_map, length_range. f_equal. lia.
  - apply Forall_forall. intros row Hrow.
    apply in_map_iff in Hrow. destruct Hrow as [k [<- _]].
    rewrite length_map, length_range. f_equal. lia.
Qed.


Lemma line_of_nonneg (x : atom) : circuit_atom x = true -> 0 <= line_of x.
Proof.
  destruct x as [i j|i t|i]; cbn [circuit_atom line_of]; intros H;
    [| discriminate |].
  - apply andb_prop in H. destruct H as [H1 H2].
    apply Z.leb_le in H1. apply Z.ltb_lt in H2. lia.
  - now apply Z.leb_le.
Qed.



Lemma for_acc_total {A S} (xs : list A) (s : S) (body : S -> A -> result S) :
  (forall s x, In x xs -> exists s', body s x = Ok s') ->
  exists s', for_acc xs s body = Ok s'.
Proof.
  intros H.
  destruct (for_acc_invariant (fun _ => True) xs s body) as [s' [Hs' _]];
    [|exact I|eauto].
  intros s0 x Hx _. destruct (H s0 x Hx) as [s1 Hs1]. eauto.
Qed.

Lemma bind_total {A B} (r : result A) (k : A -> result B) :
  (exists a, r = Ok a) -> (forall a, exists b, k a = Ok b) ->
  exists b, bind r k = Ok b.
Proof. intros [a ->] Hk. apply Hk. Qed.


Lemma count_gates_total (n : nat) (circ : grid) :
  square n circ -> exists d, count_gates circ (Z.of_nat n) = Ok d.
Proof.
  intros Hsq. unfold count_gates.
  apply for_acc_total. intros gd i Hi. apply In_range in Hi.
  apply bind_total; [|eauto]. unfold count_controls.
  apply for_acc_total. intros num_os j Hj. apply In_range in Hj.
  apply bind_total; [|eauto].
  apply (get2_square n); (assumption || lia).
Qed.


(** ** The command line *)

Lemma message_inj (d d' : diagnosis) : message d' = message d -> d' = d.
Proof. destruct d, d'; intros H; try reflexivity; discriminate H. Qed.

(** C9 (as the code behaves): a wrong number of arguments, a missing
    input file and an input file without the .csv extension each make
    the program print its own message and nothing else; the program then
    ends normally with exit status 0, having called neither
    [solve_table] nor [draw_circ] and written no file. *)
Theorem C9_configuration_errors (read_csv : string -> result (list (list Z)))
    (check : list formula -> option model) (argv : list string) (w : world)
    (d : diagnosis) :
  diagnose argv w = Some d ->
  exit_status read_csv check argv w
  = (0, mkWorld (files w) (trace w ++ [EvPrint (message d)])) /\
  (forall d', message d' = message d -> d' = d).
Proof.
  intros H. split; [|apply message_inj].
  unfold exit_status.
  assert (Hbad : forall l, len l <> 4 -> d = BadArgumentCount ->
            (let (r, w') := main read_csv check l w in
             match r with Ok _ => (0, w') | Raise _ => (1, w') end)
            = (0, mkWorld (files w) (trace w ++ [EvPrint (message d)]))).
  { intros l Hl ->. now rewrite main_bad_count. }
  destruct argv as [|a0 [|a1 [|a2 [|a3 [|a4 rest]]]]]; cbn [diagnose] in H;
    try (injection H as <-; apply Hbad; [unfold len; cbn [List.length]; lia
                                        | reflexivity]).
  rewrite main_four.
  destruct (lookup a1 (files w)).
  - destruct (endswith a1 ".csv"); [discriminate|].
    injection H as <-. reflexivity.
  - injection H as <-. reflexivity.
Qed.

Lemma C9_configuration_errors_witness :
  exit_status (reader_of "t" not_table) (fun _ => None)
    ["csolver.py"; "a.txt"; "2"; "out"]%string (world0 [("a.txt", "t")]%string)
  = (0, mkWorld (files (world0 [("a.txt", "t")]%string))
          (trace (world0 [("a.txt", "t")]%string) ++ [EvPrint (message NotCsv)])) /\
  (forall d', message d' = message NotCsv -> d' = NotCsv).
Proof.
  apply (C9_configuration_errors (reader_of "t" not_table) (fun _ => None)
           ["csolver.py"; "a.txt"; "2"; "out"]%string
           (world0 [("a.txt", "t")]%string) NotCsv).
  reflexivity.
Defined.

(** C9, as stated, fails: an invocation without arguments prints its
    message and the exit status is 0. *)
Lemma C9_counterexample :
  diagnose ["csolver.py"]%string (world0 []) = Some BadArgumentCount /\
  exit_status (reader_of "t" not_table) (fun _ => None)
    ["csolver.py"]%string (world0 [])
  = (0, mkWorld [] [EvPrint "Please input the correct number of arguments."]).
Proof. vm_compute. split; reflexivity. Qed.

(** A model without a true [c] or [n] atom leaves the result file empty,
    and the run ends in the exception of [draw_circ]. *)
Example empty_model_run :
  exit_status (reader_of "t" unit_table)
    (oracle_with [("c_0_0", false); ("n_0", false); ("v_0_0", true)]%string)
    ["csolver.py"; "a.csv"; "1"; "out"]%string one_table
  = (1, mkWorld [("out", EmptyString); ("a.csv", "t")]%string
          (check_events
             (match constraints unit_table 1 with Ok fs => fs | Raise _ => [] end)
           ++ [EvPrint "Model is satisfiable!"; EvWrite "out" EmptyString; EvElapsed;
               EvPrint "Drawing circuit to file..."; EvCall "draw_circ"])).
Proof. vm_compute. reflexivity. Qed.

(** The NOT table with two lines, drawn: line 1 is a NOT controlled by
    line 0. *)
Example not_table_run :
  lookup "out"
    (files (snd (exit_status (reader_of "t" not_table)
                   (oracle_with
                      (named [(AtomC 0 0, false); (AtomC 0 1, false);
                              (AtomC 1 0, true); (AtomC 1 1, false);
                              (AtomN 0, true); (AtomN 1, true);
                              (AtomV 0 0, false); (AtomV 0 1, true);
                              (AtomV 1 0, true); (AtomV 1 1, false)]))
                   ["csolver.py"; "a.csv"; "2"; "out"]%string one_table)))
  = Some (drawing_text {| dim := 2;
                          rows := ["|i> -X--o-" ++ NL; "|o> -X--X-" ++ NL]%string;
                          counts := ["NOT gates: 2" ++ NL; "CNOT gates: 1" ++ NL]%string |}).
Proof. vm_compute. reflexivity. Qed.

(** * Further properties of the program *)

(** ** Atom names *)

Lemma str_inj (a b : Z) : str a = str b -> a = b.
Proof.
  intros H. assert (E : int (str a) = int (str b)) by now rewrite H.
  rewrite !int_str in E. now injection E.
Qed.

Lemma split_v_name (i t : Z) :
  split "_" (v_name i t) = ["v"; str i; str t]%string.
Proof.
  unfold split, v_name. cbn [append split_aux Ascii.eqb Bool.eqb].
  rewrite split_aux_piece by (apply contains_str; reflexivity).
  rewrite split_aux_last by (apply contains_str; reflexivity).
  reflexivity.
Qed.

Lemma split_name (x : atom) :
  split "_" (name x)
  = match x with
    | AtomC i j => ["c"; str i; str j]%string
    | AtomV i t => ["v"; str i; str t]%string
    | AtomN i => ["n"; str i]%string
    end.
Proof.
  destruct x; cbn [name];
    [apply split_c_name | apply split_v_name | apply split_n_name].
Qed.

(** Lines 75-90: the names given to the atoms are pairwise different, so
    the solver sees one Boolean per entry of [c], [v] and [n]. *)
Theorem name_injective (x y : atom) : name x = name y -> x = y.
Proof.
  intros H. assert (E : split "_" (name x) = split "_" (name y)) by now rewrite H.
  rewrite !split_name in E.
  destruct x, y; try discriminate E; injection E; intros;
    repeat match goal with
           | H : str _ = str _ |- _ => apply str_inj in H; subst
           end; reflexivity.
Qed.

Lemma name_injective_witness : AtomC 1 0 = AtomC 1 0.
Proof. apply (name_injective (AtomC 1 0) (AtomC 1 0)). reflexivity. Defined.

Lemma field1_c_name (i j : Z) : field 1 (c_name i j) = Ok i.
Proof.
  unfold field. rewrite split_c_name.
  change (py_get ["c"; str i; str j]%string 1) with (Ok (str i)).
  cbn [bind]. apply int_str.
Qed.

Lemma field1_n_name (i : Z) : field 1 (n_name i) = Ok i.
Proof.
  unfold field. rewrite split_n_name.
  change (py_get ["n"; str i]%string 1) with (Ok (str i)).
  cbn [bind]. apply int_str.
Qed.

(** Lines 78, 90 and 168-174, 194-195: the decoder reads back from a
    name what the encoder put into it, the family from the first
    character and the indices from the fields between underscores. *)
Theorem decode_name (i j : Z) :
  (starts_with "c" (c_name i j) = Ok true /\
   starts_with "n" (c_name i j) = Ok false /\
   field 1 (c_name i j) = Ok i /\
   field 2 (c_name i j) = Ok j) /\
  (starts_with "n" (n_name i) = Ok true /\
   starts_with "c" (n_name i) = Ok false /\
   field 1 (n_name i) = Ok i /\
   field 2 (n_name i) = Raise IndexError).
Proof.
  repeat split; try reflexivity.
  - unfold field. rewrite split_c_name.
    change (py_get ["c"; str i; str j]%string 1) with (Ok (str i)).
    cbn [bind]. apply int_str.
  - apply field2_c_name.
  - unfold field. rewrite split_n_name.
    change (py_get ["n"; str i]%string 1) with (Ok (str i)).
    cbn [bind]. apply int_str.
  - unfold field. rewrite split_n_name. reflexivity.
Qed.

(** ** The size of the formula *)

Lemma for_add_length {A} (xs : list A) (body : A -> result (list formula))
    (f : A -> Z) (fs : list formula) :
  for_add xs body = Ok fs ->
  (forall x gs, In x xs -> body x = Ok gs -> len gs = f x) ->
  len fs = total (map f xs).
Proof.
  revert fs. induction xs as [|x xs IH]; intros fs H Hf.
  - cbn [for_add] in H. now injection H as <-.
  - cbn [for_add] in H. inv_bind H. inv_bind H. injection H as <-.
    unfold len. rewrite length_app, Nat2Z.inj_add. cbn [map total fold_right].
    fold (total (map f xs)).
    rewrite <- (IH x1 Hx0) by (intros; eapply Hf; eauto; now right).
    rewrite <- (Hf x x0) by (auto; now left). reflexivity.
Qed.

Lemma total_const (xs : list Z) (k : Z) :
  total (map (fun _ => k) xs) = len xs * k.
Proof.
  unfold len. induction xs as [|x xs IH]; [reflexivity|].
  cbn [map total fold_right List.length]. fold (total (map (fun _ => k) xs)).
  rewrite IH. lia.
Qed.

Lemma len_range (a b : Z) : len (range a b) = Z.max 0 (b - a).
Proof. unfold len. rewrite length_range. lia. Qed.

Lemma total_triangle (k : nat) (a b : Z) :
  b = a + Z.of_nat k ->
  2 * total (map (fun i => b - i) (range a b)) = Z.of_nat k * (Z.of_nat k + 1).
Proof.
  revert a. induction k as [|k IH]; intros a Hb.
  - unfold range. replace (b - a) with 0 by lia. reflexivity.
  - rewrite range_cons by lia. cbn [map total fold_right].
    fold (total (map (fun i => b - i) (range (a + 1) b))).
    specialize (IH (a + 1)). lia.
Qed.

(** Lines 95-140: with [g >= 0] lines, [r] rows and [o] output columns
    the solver receives g(g+1)/2 acyclicity assertions, o*r
    output pins and g*r evolution clauses. *)
Theorem formula_size (truth_table : list (list Z)) (g : Z) (fs : list formula)
    (num_rows num_output_bits num_input_bits : Z) :
  constraints truth_table g = Ok fs ->
  dimensions truth_table = Ok (num_rows, num_output_bits, num_input_bits) ->
  0 <= g ->
  2 * len fs = g * (g + 1) + 2 * num_output_bits * num_rows + 2 * g * num_rows.
Proof.
  intros H Hd Hg.
  destruct (constraints_inv _ _ _ H) as (row0 & a & p & e & Hr & Ha & Hp & He & ->).
  unfold dimensions in Hd. rewrite Hr in Hd. cbn [bind] in Hd.
  injection Hd as <- <- <-.
  assert (Hrows : 0 <= len truth_table) by (unfold len; lia).
  assert (Hcols : 0 <= len row0) by (unfold len; lia).
  assert (La : 2 * len a = g * (g + 1)).
  { unfold acyclic in Ha.
    rewrite (for_add_length _ _ (fun i => g - i) _ Ha).
    - rewrite (total_triangle (Z.to_nat g) 0 g) by lia. lia.
    - intros i gs Hi Hgs. apply In_range in Hi.
      rewrite (for_add_length _ _ (fun _ => 1) _ Hgs).
      + rewrite total_const, len_range. lia.
      + intros j hs _ Hhs. inv_bind Hhs. now injection Hhs as <-. }
  assert (Lp : len p = len row0 * len truth_table).
  { unfold pin_outputs in Hp.
    rewrite (for_add_length _ _ (fun _ => len truth_table) _ Hp).
    - rewrite total_const, len_range. lia.
    - intros gate gs _ Hgs.
      rewrite (for_add_length _ _ (fun _ => 1) _ Hgs).
      + rewrite total_const, len_range. lia.
      + intros t hs _ Hhs. inv_bind Hhs. inv_bind Hhs.
        destruct (x =? 0); now injection Hhs as <-. }
  assert (Le : len e = g * len truth_table).
  { unfold evolution in He.
    rewrite (for_add_length _ _ (fun _ => len truth_table) _ He).
    - rewrite total_const, len_range. lia.
    - intros i gs _ Hgs.
      rewrite (for_add_length _ _ (fun _ => 1) _ Hgs).
      + rewrite total_const, len_range. lia.
      + intros t hs _ Hhs. inv_bind Hhs. inv_bind Hhs. now injection Hhs as <-. }
  unfold len in *. rewrite !length_app, !Nat2Z.inj_add. lia.
Qed.

Lemma formula_size_witness :
  2 * len not_formula = 2 * (2 + 1) + 2 * 1 * 2 + 2 * 2 * 2.
Proof.
  apply (formula_size not_table 2 not_formula 2 1 1); [reflexivity | reflexivity | lia].
Defined.

(** ** Satisfying assignments compute the table *)

Lemma satisfies_forallb (a : string -> bool) (fs : list formula) :
  forallb (eval a) fs = true -> satisfies a fs.
Proof. intros H f Hf. rewrite forallb_forall in H. now apply H. Qed.

Lemma evolution_value (truth_table : list (list Z)) (g : Z)
    (fs : list formula) (a : string -> bool) (i t : Z) :
  constraints truth_table g = Ok fs ->
  satisfies a fs ->
  0 <= i < g -> 0 <= t < len truth_table ->
  a (v_name i t) = clause_value a (ceil_log2 (len truth_table)) i t.
Proof.
  intros H Hsat Hi Ht.
  destruct (constraints_inv _ _ _ H) as (row0 & a0 & p & e & _ & _ & _ & He & ->).
  unfold evolution in He.
  destruct (for_add_inv _ _ _ i He) as [gs [Hgs Hincl]]; [apply In_range; lia|].
  destruct (for_add_inv _ _ _ t Hgs) as [hs [Hhs Hincl']]; [apply In_range; lia|].
  inv_bind Hhs. rewrite get2_make_v in Hhs by assumption.
  cbn [bind] in Hhs. injection Hhs as <-.
  rewrite <- (gate_clause_eval a g (len truth_table) _ i t x Hi Ht
                (row_below_pow2 _ _ Ht) Hx).
  apply eval_Eq_atom, Hsat.
  apply in_or_app. right. apply in_or_app. right.
  apply Hincl, Hincl'. now left.
Qed.

Lemma forallb_ext_in {A} (f g : A -> bool) (l : list A) :
  (forall x, In x l -> f x = g x) -> forallb f l = forallb g l.
Proof.
  induction l as [|x l IH]; intros H; cbn [forallb]; [reflexivity|].
  rewrite (H x) by now left. rewrite IH; [reflexivity|].
  intros; apply H; now right.
Qed.

(** In every satisfying assignment a value atom is what evaluating the
    lines in index order gives from the assignment's controls and NOT
    selectors. *)
Lemma forward_value (truth_table : list (list Z)) (g : Z) (fs : list formula)
    (a : string -> bool) (fuel : nat) (i t : Z) :
  constraints truth_table g = Ok fs ->
  satisfies a fs ->
  0 <= i < g ->
  0 <= t < len truth_table ->
  (Z.to_nat i < fuel)%nat ->
  a (v_name i t)
  = line_value (controls_of a) (nots_of a) (ceil_log2 (len truth_table)) t fuel i.
Proof.
  intros H Hsat Hi Ht. revert i Hi.
  induction fuel as [|fuel IH]; intros i Hi Hfuel; [lia|].
  rewrite (evolution_value _ _ _ _ _ _ H Hsat Hi Ht).
  cbn [line_value]. unfold clause_value, propagated.
  assert (E : forallb (fun count => a (v_name (i - count) t)
                                    || negb (a (c_name i (i - count))))
                      (range 1 (i + 1))
              = forallb (fun count =>
                           line_value (controls_of a) (nots_of a)
                             (ceil_log2 (len truth_table)) t fuel (i - count)
                           || negb (controls_of a i (i - count)))
                        (range 1 (i + 1))).
  { apply forallb_ext_in. intros count Hc. apply In_range in Hc.
    rewrite (IH (i - count)) by lia. reflexivity. }
  rewrite E. reflexivity.
Qed.

Lemma line_value_ext (c c' : Z -> Z -> bool) (n n' : Z -> bool)
    (num_input_bits t : Z) (fuel : nat) (i : Z) :
  (forall i j, c i j = c' i j) -> (forall i, n i = n' i) ->
  line_value c n num_input_bits t fuel i
  = line_value c' n' num_input_bits t fuel i.
Proof.
  intros Hc Hn. revert i. induction fuel as [|fuel IH]; intros i; [reflexivity|].
  cbn [line_value]. rewrite Hn.
  rewrite (forallb_ext_in _
             (fun count => line_value c' n' num_input_bits t fuel (i - count)
                           || negb (c' i (i - count))) (range 1 (i + 1)));
    [reflexivity|].
  intros count _. now rewrite IH, Hc.
Qed.

(** Lines 122-140: the value atoms carry no information of their own:
    two satisfying assignments that give every control atom [c_i_j] and
    every NOT selector [n_i] the same value give every value atom
    [v_i_t] of the formula the same value. *)
Theorem value_atoms_determined (truth_table : list (list Z)) (g : Z)
    (fs : list formula) (a b : string -> bool) (i t : Z) :
  constraints truth_table g = Ok fs ->
  satisfies a fs ->
  satisfies b fs ->
  (forall i j, a (c_name i j) = b (c_name i j)) ->
  (forall i, a (n_name i) = b (n_name i)) ->
  0 <= i < g ->
  0 <= t < len truth_table ->
  a (v_name i t) = b (v_name i t).
Proof.
  intros H Ha Hb Hc Hn Hi Ht.
  rewrite (forward_value _ _ _ a (S (Z.to_nat i)) i t H Ha Hi Ht) by lia.
  rewrite (forward_value _ _ _ b (S (Z.to_nat i)) i t H Hb Hi Ht) by lia.
  apply line_value_ext; intros; unfold controls_of, nots_of; auto.
Qed.

Lemma value_atoms_determined_witness :
  assignment (named not_model) (v_name 1 1)
  = assignment (named not_model) (v_name 1 1).
Proof.
  apply (value_atoms_determined not_table 2 not_formula
           (assignment (named not_model)) (assignment (named not_model)));
    [reflexivity | apply satisfies_forallb; reflexivity
    | apply satisfies_forallb; reflexivity | reflexivity | reflexivity | lia
    | unfold not_table, len; simpl; lia].
Defined.

(** Lines 103-140: the circuit read off a satisfying assignment,
    evaluated in index order, gives on each of the last
    [num_output_bits] lines the bit the table stores for that row and
    column. *)
Theorem output_fidelity (truth_table : list (list Z)) (g : Z)
    (fs : list formula) (a : string -> bool)
    (num_rows num_output_bits num_input_bits gate t : Z) :
  constraints truth_table g = Ok fs ->
  dimensions truth_table = Ok (num_rows, num_output_bits, num_input_bits) ->
  satisfies a fs ->
  0 <= gate ->
  g - num_output_bits <= gate < g ->
  0 <= t < num_rows ->
  exists bit,
    get2 truth_table t (gate - (g - num_output_bits)) = Ok bit /\
    line_value (controls_of a) (nots_of a) num_input_bits t
      (S (Z.to_nat gate)) gate
    = negb (bit =? 0).
Proof.
  intros H Hd Hsat Hg0 Hg Ht.
  destruct (pinned_line _ _ _ _ _ _ gate t H Hd Hg Ht) as [bit [Hbit Hin]].
  destruct (Z.leb_spec 0 gate); [|lia].
  exists bit. split; [assumption|].
  assert (Hdim : num_rows = len truth_table
                 /\ num_input_bits = ceil_log2 (len truth_table)).
  { unfold dimensions in Hd. inv_bind Hd. now injection Hd as <- _ <-. }
  destruct Hdim as [-> ->].
  rewrite <- (forward_value _ _ _ a (S (Z.to_nat gate)) gate t H Hsat) by lia.
  now apply (eval_Eq_atom a _ (BoolVal _)), Hsat.
Qed.

Lemma output_fidelity_witness :
  exists bit,
    get2 not_table 1 (1 - (2 - 1)) = Ok bit /\
    line_value (controls_of (assignment (named not_model)))
      (nots_of (assignment (named not_model))) 1 1 (S (Z.to_nat 1)) 1
    = negb (bit =? 0).
Proof.
  apply (output_fidelity not_table 2 not_formula (assignment (named not_model))
           2 1 1 1 1);
    [reflexivity | reflexivity | apply satisfies_forallb; reflexivity
    | lia | lia | lia].
Defined.

(** ** Reading and writing the matrix *)

Lemma nth_error_replace_nth {A} (l : list A) (p q : nat) (x : A) :
  (p < List.length l)%nat ->
  nth_error (replace_nth l p x) q
  = if Nat.eqb p q then Some x else nth_error l q.
Proof.
  revert p q. induction l as [|y l IH]; intros p q Hp; [cbn in Hp; lia|].
  destruct p as [|p], q as [|q]; cbn [replace_nth nth_error Nat.eqb];
    try reflexivity.
  apply IH. cbn [List.length] in Hp. lia.
Qed.

Lemma py_get_replace_nth {A} (l : list A) (k k' : Z) (x : A) :
  0 <= k < len l -> 0 <= k' < len l ->
  py_get (replace_nth l (Z.to_nat k) x) k'
  = if k' =? k then Ok x else py_get l k'.
Proof.
  unfold len. intros Hk Hk'. unfold py_get, norm_index.
  rewrite length_replace_nth.
  destruct (Z.leb_spec 0 k'); [|lia].
  destruct (Z.ltb_spec k' (Z.of_nat (List.length l))); [|lia]. cbn [andb].
  rewrite nth_error_replace_nth by lia.
  destruct (Nat.eqb_spec (Z.to_nat k) (Z.to_nat k')) as [E|E];
    destruct (Z.eqb_spec k' k); try lia; reflexivity.
Qed.

Lemma get2_set2 (n : nat) (circ circ' : grid) (i j r c : Z) (x : string) :
  square n circ ->
  0 <= i < Z.of_nat n -> 0 <= j < Z.of_nat n ->
  0 <= r < Z.of_nat n -> 0 <= c < Z.of_nat n ->
  set2 circ i j x = Ok circ' ->
  get2 circ' r c = if (r =? i) && (c =? j) then Ok x else get2 circ r c.
Proof.
  intros Hsq Hi Hj Hr Hc H.
  destruct (square_row n circ i Hsq Hi) as [row [Hrow Hlen]].
  destruct Hsq as [Hl Hrows].
  unfold set2 in H. rewrite Hrow in H. cbn [bind] in H.
  rewrite py_set_in_range in H by (unfold len; lia). cbn [bind] in H.
  rewrite py_set_in_range in H by (unfold len; lia). injection H as <-.
  unfold get2. rewrite py_get_replace_nth by (unfold len; lia).
  destruct (Z.eqb_spec r i) as [->|Hne]; cbn [andb bind].
  - rewrite py_get_replace_nth by (unfold len; lia).
    rewrite Hrow. cbn [bind]. destruct (c =? j); reflexivity.
  - reflexivity.
Qed.

Lemma cells_ext (n : Z) (circ : grid) (f g : Z -> Z -> string) :
  cells n circ f ->
  (forall r c, 0 <= r < n -> 0 <= c < n -> f r c = g r c) ->
  cells n circ g.
Proof. intros Hf E r c Hr Hc. rewrite <- E by assumption. now apply Hf. Qed.

Lemma set2_paint (n : Z) (circ : grid) (f : Z -> Z -> string) (i j : Z)
    (x : string) :
  square (Z.to_nat n) circ -> cells n circ f ->
  0 <= i < n -> 0 <= j < n ->
  exists circ',
    set2 circ i j x = Ok circ' /\
    square (Z.to_nat n) circ' /\
    cells n circ' (paint (fun r c => (r =? i) && (c =? j)) x f).
Proof.
  intros Hsq Hcells Hi Hj.
  destruct (set2_square (Z.to_nat n) circ i j x Hsq) as [circ' [Hset Hsq']];
    [lia | lia |].
  exists circ'. split; [assumption|]. split; [assumption|].
  intros r c Hr Hc.
  rewrite (get2_set2 (Z.to_nat n) circ circ' i j r c x Hsq) by (assumption || lia).
  unfold paint. destruct ((r =? i) && (c =? j)); [reflexivity|].
  now apply Hcells.
Qed.

Lemma cells_blank (n : Z) : cells n (blank n) (fun _ _ => "-"%string).
Proof.
  intros r c Hr Hc. unfold get2, blank.
  rewrite py_get_map_range by assumption. cbn [bind].
  now rewrite py_get_map_range.
Qed.

(** A loop whose every step writes [v] where its own condition holds
    writes [v] where the condition of some step holds. *)
Lemma for_acc_paint {A} (n : Z) (K : (Z -> Z -> string) -> Prop)
    (h : A -> Z -> Z -> bool) (v : string) (xs : list A)
    (body : grid -> A -> result grid) :
  (forall circ f x, In x xs -> square (Z.to_nat n) circ -> cells n circ f ->
     K f ->
     exists circ', body circ x = Ok circ' /\ square (Z.to_nat n) circ' /\
                   cells n circ' (paint (h x) v f)) ->
  (forall f x, In x xs -> K f -> K (paint (h x) v f)) ->
  forall circ f, square (Z.to_nat n) circ -> cells n circ f -> K f ->
  exists circ',
    for_acc xs circ body = Ok circ' /\ square (Z.to_nat n) circ' /\
    cells n circ' (paint (fun r c => existsb (fun x => h x r c) xs) v f).
Proof.
  induction xs as [|x xs IH]; intros Hbody HK circ f Hsq Hcells Hf.
  - exists circ. cbn [for_acc]. split; [reflexivity|]. split; [assumption|].
    eapply cells_ext; [exact Hcells|]. reflexivity.
  - destruct (Hbody circ f x (or_introl eq_refl) Hsq Hcells Hf)
      as (circ1 & Hb & Hsq1 & Hc1).
    cbn [for_acc]. rewrite Hb. cbn [bind].
    destruct (IH (fun c0 f0 y Hy => Hbody c0 f0 y (or_intror Hy))
                 (fun f0 y Hy => HK f0 y (or_intror Hy))
                 circ1 _ Hsq1 Hc1 (HK f x (or_introl eq_refl) Hf))
      as (circ2 & Hl & Hsq2 & Hc2).
    exists circ2. split; [assumption|]. split; [assumption|].
    eapply cells_ext; [exact Hc2|].
    intros r c _ _. unfold paint. cbn [existsb].
    destruct (h x r c), (existsb (fun y => h y r c) xs); reflexivity.
Qed.

(** Lines 262-266: [o_above] answers whether a control dot lies in the
    column strictly above the cell. *)
Lemma o_above_cells (n : Z) (circ : grid) (f : Z -> Z -> string) (j i : Z) :
  cells n circ f -> 0 <= j <= n -> 0 <= i < n ->
  o_above circ j i
  = Ok (existsb (fun y => String.eqb (f y i) CONTROL_DOT) (range 0 j)).
Proof.
  intros Hcells Hj Hi. unfold o_above.
  assert (H : forall ys, (forall y, In y ys -> 0 <= y < n) ->
            o_above_loop circ ys i
            = Ok (existsb (fun y => String.eqb (f y i) CONTROL_DOT) ys)).
  { induction ys as [|y ys IH]; intros Hys; cbn [o_above_loop existsb];
      [reflexivity|].
    rewrite Hcells by (assumption || (apply Hys; now left)). cbn [bind].
    destruct (String.eqb (f y i) CONTROL_DOT); [reflexivity|].
    apply IH. intros; apply Hys; now right. }
  apply H. intros y Hy. apply In_range in Hy. lia.
Qed.

(** ** The four passes over the matrix *)

Lemma place_nots_cells (n : Z) (nots : list string) (circ : grid)
    (f : Z -> Z -> string) :
  (forall s, In s nots -> exists i, s = n_name i /\ 0 <= i < n) ->
  0 < n ->
  square (Z.to_nat n) circ -> cells n circ f ->
  exists circ',
    place_nots nots circ = Ok circ' /\ square (Z.to_nat n) circ' /\
    cells n circ'
      (paint (fun r c => existsb (fun s => (r =? line_index s) && (c =? 0)) nots)
             NOT_GATE f).
Proof.
  intros Hnots Hn Hsq Hcells. unfold place_nots.
  apply (for_acc_paint n (fun _ => True)
           (fun s r c => (r =? line_index s) && (c =? 0)));
    try assumption; try (intros; exact I).
  intros circ0 f0 s Hs Hsq0 Hc0 _.
  destruct (Hnots s Hs) as (i & -> & Hi).
  assert (Hf : field 1 (n_name i) = Ok i) by apply field1_n_name.
  unfold line_index. rewrite Hf. cbn [bind].
  now apply set2_paint; try lia.
Qed.

Lemma place_diagonal_cells (n : Z) (circ : grid) (f : Z -> Z -> string) :
  square (Z.to_nat n) circ -> cells n circ f ->
  exists circ',
    place_diagonal n circ = Ok circ' /\ square (Z.to_nat n) circ' /\
    cells n circ'
      (paint (fun r c =>
                existsb (fun i =>
                  existsb (fun j => (i =? j) && ((r =? i) && (c =? j)))
                          (range 0 n)) (range 0 n))
             NOT_GATE f).
Proof.
  intros Hsq Hcells. unfold place_diagonal.
  apply (for_acc_paint n (fun _ => True)
           (fun i r c => existsb (fun j => (i =? j) && ((r =? i) && (c =? j)))
                                 (range 0 n)));
    try assumption; try (intros; exact I).
  intros circ0 f0 i Hi Hsq0 Hc0 _. apply In_range in Hi.
  apply (for_acc_paint n (fun _ => True)
           (fun j r c => (i =? j) && ((r =? i) && (c =? j))));
    try assumption; try (intros; exact I).
  intros circ1 f1 j Hj Hsq1 Hc1 _. apply In_range in Hj.
  destruct (i =? j).
  - destruct (set2_paint n circ1 f1 i j NOT_GATE Hsq1 Hc1) as (c2 & H2 & Hs2 & Hc2);
      [lia | lia |].
    exists c2. split; [assumption|]. split; [assumption|].
    eapply cells_ext; [exact Hc2|]. reflexivity.
  - exists circ1. split; [reflexivity|]. split; [assumption|].
    eapply cells_ext; [exact Hc1|]. reflexivity.
Qed.

Lemma place_controls_cells (n : Z) (cs : list string) (circ : grid)
    (f : Z -> Z -> string) :
  (forall s, In s cs -> exists i j, s = c_name i j /\ 0 <= j < i /\ i < n) ->
  square (Z.to_nat n) circ -> cells n circ f ->
  exists circ',
    place_controls cs circ = Ok circ' /\ square (Z.to_nat n) circ' /\
    cells n circ'
      (paint (fun r c =>
                existsb (fun s => (r =? control_index s) && (c =? line_index s)) cs)
             CONTROL_DOT f).
Proof.
  intros Hcs Hsq Hcells. unfold place_controls.
  apply (for_acc_paint n (fun _ => True)
           (fun s r c => (r =? control_index s) && (c =? line_index s)));
    try assumption; try (intros; exact I).
  intros circ0 f0 s Hs Hsq0 Hc0 _.
  destruct (Hcs s Hs) as (i & j & -> & Hj & Hi).
  assert (Hf1 := field1_c_name i j). assert (Hf2 := field2_c_name i j).
  unfold control_index, line_index. rewrite Hf1, Hf2. cbn [bind].
  now apply set2_paint; try lia.
Qed.

Lemma place_pipes_cells (n : Z) (circ : grid) (f : Z -> Z -> string) :
  square (Z.to_nat n) circ -> cells n circ f ->
  exists circ',
    place_pipes n circ = Ok circ' /\ square (Z.to_nat n) circ' /\
    cells n circ'
      (paint (fun r c =>
                existsb (fun i =>
                  existsb (fun j => ((r =? j) && (c =? i)) && pipe_here f j i)
                          (range 1 i)) (range 1 n))
             PIPE f).
Proof.
  intros Hsq Hcells. unfold place_pipes.
  set (K := fun g : Z -> Z -> string =>
              forall r c, 0 <= r < n -> 0 <= c < n ->
                g r c = f r c \/ (g r c = PIPE /\ pipe_here f r c = true)).
  assert (Hpaint : forall g i j, 0 <= j < n -> 0 <= i < n -> K g ->
            K (paint (fun r c => ((r =? j) && (c =? i)) && pipe_here f j i)
                     PIPE g)).
  { intros g i j Hj Hi Hg r c Hr Hc. unfold paint.
    destruct (Z.eqb_spec r j) as [->|]; [|now apply Hg].
    destruct (Z.eqb_spec c i) as [->|]; [|now apply Hg]. cbn [andb].
    destruct (pipe_here f j i) eqn:E; [right; split; reflexivity|].
    destruct (Hg j i Hr Hc) as [H|[_ H]]; [now left | congruence]. }
  apply (for_acc_paint n K
           (fun i r c => existsb (fun j => ((r =? j) && (c =? i)) && pipe_here f j i)
                                 (range 1 i)));
    try assumption.
  - intros circ0 g0 i Hi Hsq0 Hc0 Hg0. apply In_range in Hi.
    apply (for_acc_paint n K
             (fun j r c => ((r =? j) && (c =? i)) && pipe_here f j i));
      try assumption.
    + intros circ1 g j Hj Hsq1 Hc1 Hg. apply In_range in Hj.
      rewrite Hc1 by lia. cbn [bind].
      assert (Hdots : forall y, 0 <= y < n ->
                String.eqb (g y i) CONTROL_DOT = String.eqb (f y i) CONTROL_DOT).
      { intros y Hy. destruct (Hg y i Hy) as [->|[Hp Hh]]; [lia | reflexivity |].
        rewrite Hp. unfold pipe_here in Hh. apply andb_prop in Hh.
        destruct Hh as [Hh _]. apply String.eqb_eq in Hh. now rewrite Hh. }
      assert (Habove : existsb (fun y => String.eqb (g y i) CONTROL_DOT) (range 0 j)
                       = existsb (fun y => String.eqb (f y i) CONTROL_DOT) (range 0 j)).
      { clear - Hdots Hj Hi. assert (Hr : forall y, In y (range 0 j) -> 0 <= y < n).
        { intros y Hy. apply In_range in Hy. lia. }
        induction (range 0 j) as [|y ys IH]; [reflexivity|]. cbn [existsb].
        rewrite Hdots by (apply Hr; now left).
        rewrite IH by (intros; apply Hr; now right). reflexivity. }
      destruct (String.eqb (g j i) "-") eqn:Edash.
      * rewrite (o_above_cells n circ1 g j i Hc1) by lia. cbn [bind].
        rewrite Habove.
        assert (Efj : f j i = "-"%string).
        { apply String.eqb_eq in Edash.
          destruct (Hg j i) as [E|[E _]]; [lia | lia | congruence |].
          rewrite E in Edash. discriminate. }
        assert (Eh : pipe_here f j i
                     = existsb (fun y => String.eqb (f y i) CONTROL_DOT) (range 0 j)).
        { unfold pipe_here. now rewrite Efj. }
        rewrite <- Eh.
        destruct (pipe_here f j i) eqn:Ep.
        -- destruct (set2_paint n circ1 g j i PIPE Hsq1 Hc1)
             as (c2 & H2 & Hs2 & Hc2); [lia | lia |].
           exists c2. split; [assumption|]. split; [assumption|].
           eapply cells_ext; [exact Hc2|].
           intros r c _ _. unfold paint. now rewrite andb_true_r.
        -- exists circ1. split; [reflexivity|]. split; [assumption|].
           eapply cells_ext; [exact Hc1|].
           intros r c _ _. unfold paint. now rewrite andb_false_r.
      * exists circ1. split; [reflexivity|]. split; [assumption|].
        eapply cells_ext; [exact Hc1|].
        intros r c Hr Hc. unfold paint.
        destruct (Z.eqb_spec r j) as [->|]; [|reflexivity].
        destruct (Z.eqb_spec c i) as [->|]; [|reflexivity]. cbn [andb].
        destruct (pipe_here f j i) eqn:Ep; [|reflexivity].
        destruct (Hg j i) as [E|[E _]]; [lia | lia | | now rewrite E].
        unfold pipe_here in Ep. apply andb_prop in Ep. destruct Ep as [Ep _].
        rewrite <- E in Ep. rewrite Ep in Edash. discriminate.
    + intros g j Hj Hg. apply In_range in Hj. apply Hpaint; (assumption || lia).
  - intros g i Hi Hg r c Hr Hc. apply In_range in Hi. unfold paint.
    destruct (existsb (fun j => ((r =? j) && (c =? i)) && pipe_here f j i)
                      (range 1 i)) eqn:E; [|now apply Hg].
    right. split; [reflexivity|].
    apply existsb_exists in E. destruct E as (j & _ & E).
    apply andb_prop in E. destruct E as [E Ep]. apply andb_prop in E.
    destruct E as [E1 E2]. apply Z.eqb_eq in E1. apply Z.eqb_eq in E2.
    now subst.
  - intros r c _ _. now left.
Qed.

(** ** The matrix in terms of the atoms *)

Lemma bool_eq_iff (b1 b2 : bool) : (b1 = true <-> b2 = true) -> b1 = b2.
Proof.
  destruct b1, b2; intros [H1 H2]; try reflexivity.
  - symmetry. now apply H1.
  - now apply H2.
Qed.

Lemma atom_eqb_eq (x y : atom) : atom_eqb x y = true <-> x = y.
Proof.
  destruct x, y; cbn [atom_eqb]; rewrite ?andb_true_iff, ?Z.eqb_eq;
    split; intros H; try discriminate H;
    try (destruct H; subst; reflexivity); try (subst; reflexivity);
    injection H; intros; subst; auto.
Qed.

Lemma has_atom_In (xs : list atom) (x : atom) :
  has_atom xs x = true <-> In x xs.
Proof.
  unfold has_atom. rewrite existsb_exists. split.
  - intros (y & Hy & E). apply atom_eqb_eq in E. now subst.
  - intros H. exists x. split; [assumption|]. now apply atom_eqb_eq.
Qed.

Lemma existsb_ext_in {A} (f g : A -> bool) (l : list A) :
  (forall x, In x l -> f x = g x) -> existsb f l = existsb g l.
Proof.
  induction l as [|x l IH]; intros H; cbn [existsb]; [reflexivity|].
  rewrite (H x) by now left. rewrite IH; [reflexivity|].
  intros; apply H; now right.
Qed.

Lemma diagonal_hit (n r c : Z) :
  0 <= r < n -> 0 <= c < n ->
  existsb (fun i => existsb (fun j => (i =? j) && ((r =? i) && (c =? j)))
                            (range 0 n)) (range 0 n)
  = (r =? c).
Proof.
  intros Hr Hc. apply bool_eq_iff. rewrite existsb_exists. split.
  - intros (i & _ & H). apply existsb_exists in H. destruct H as (j & _ & H).
    apply andb_prop in H. destruct H as [H1 H]. apply andb_prop in H.
    destruct H as [H2 H3].
    apply Z.eqb_eq in H1. apply Z.eqb_eq in H2. apply Z.eqb_eq in H3.
    apply Z.eqb_eq. lia.
  - intros H. apply Z.eqb_eq in H. subst c. exists r.
    split; [apply In_range; lia|]. apply existsb_exists. exists r.
    split; [apply In_range; lia|]. now rewrite !Z.eqb_refl.
Qed.

Lemma pipe_hit (n r c : Z) (ph : Z -> Z -> bool) :
  0 <= r < n -> 0 <= c < n ->
  existsb (fun i => existsb (fun j => ((r =? j) && (c =? i)) && ph j i)
                            (range 1 i)) (range 1 n)
  = (1 <=? r) && (r <? c) && ph r c.
Proof.
  intros Hr Hc. apply bool_eq_iff. rewrite existsb_exists. split.
  - intros (i & Hi & H). apply existsb_exists in H. destruct H as (j & Hj & H).
    apply In_range in Hi. apply In_range in Hj.
    apply andb_prop in H. destruct H as [H Hp]. apply andb_prop in H.
    destruct H as [H1 H2]. apply Z.eqb_eq in H1. apply Z.eqb_eq in H2. subst.
    rewrite Hp, andb_true_r. apply andb_true_intro.
    split; [apply Z.leb_le | apply Z.ltb_lt]; lia.
  - intros H. apply andb_prop in H. destruct H as [H Hp].
    apply andb_prop in H. destruct H as [H1 H2].
    apply Z.leb_le in H1. apply Z.ltb_lt in H2.
    exists c. split; [apply In_range; lia|]. apply existsb_exists. exists r.
    split; [apply In_range; lia|]. now rewrite !Z.eqb_refl, Hp.
Qed.

Lemma pre_pipe_dot (xs : list atom) (r c : Z) :
  String.eqb (pre_pipe xs r c) CONTROL_DOT = dot xs r c.
Proof.
  unfold pre_pipe. destruct (dot xs r c); [reflexivity|].
  destruct (r =? c); [reflexivity|].
  destruct ((c =? 0) && has_atom xs (AtomN r)); reflexivity.
Qed.

Lemma paint_pipes_spec (xs : list atom) (r c : Z) :
  paint (fun r c => (1 <=? r) && (r <? c) && pipe_here (pre_pipe xs) r c) PIPE
        (pre_pipe xs) r c
  = spec_cell xs r c.
Proof.
  unfold paint, pipe_here, spec_cell.
  rewrite (existsb_ext_in _ (fun y => dot xs y c) (range 0 r))
    by (intros; apply pre_pipe_dot).
  unfold pre_pipe.
  destruct (dot xs r c); [now rewrite !andb_false_r|].
  destruct (r =? c); [now rewrite !andb_false_r|].
  destruct ((c =? 0) && has_atom xs (AtomN r)); [now rewrite !andb_false_r|].
  cbn [String.eqb Ascii.eqb Bool.eqb andb].
  destruct ((1 <=? r) && (r <? c)); [|reflexivity]. cbn [andb].
  destruct (existsb (fun y => dot xs y c) (range 0 r)); reflexivity.
Qed.

(** Lines 178-204: for a file of well-formed atoms the matrix holds in
    every cell the symbol [spec_cell] gives for the atoms. *)
Lemma matrix_cells (xs : list atom) (nots cs : list string) (n : Z) :
  forallb circuit_atom xs = true ->
  (forall x, In x xs -> line_of x < n) ->
  0 < n ->
  (forall s, In s nots <-> exists i, In (AtomN i) xs /\ s = n_name i) ->
  (forall s, In s cs <-> exists i j, In (AtomC i j) xs /\ s = c_name i j) ->
  exists circ,
    matrix nots cs n = Ok circ /\ square (Z.to_nat n) circ /\
    cells n circ (spec_cell xs).
Proof.
  intros Hall Hlt Hn Hnots Hcs. rewrite forallb_forall in Hall.
  assert (Hn_in : forall i, In (AtomN i) xs -> 0 <= i < n).
  { intros i Hi. split; [apply (line_of_nonneg _ (Hall _ Hi)) | apply (Hlt _ Hi)]. }
  assert (Hc_in : forall i j, In (AtomC i j) xs -> 0 <= j < i /\ i < n).
  { intros i j Hi. specialize (Hall _ Hi). cbn [circuit_atom] in Hall.
    apply andb_prop in Hall. destruct Hall as [H1 H2].
    apply Z.leb_le in H1. apply Z.ltb_lt in H2.
    split; [lia | apply (Hlt _ Hi)]. }
  unfold matrix.
  destruct (place_nots_cells n nots (blank n) (fun _ _ => "-"%string))
    as (c1 & H1 & Hs1 & Hc1);
    [| assumption | apply square_blank | apply cells_blank |].
  { intros s Hs. apply Hnots in Hs. destruct Hs as (i & Hi & ->). eauto. }
  rewrite H1. cbn [bind].
  destruct (place_diagonal_cells n c1 _ Hs1 Hc1) as (c2 & H2 & Hs2 & Hc2).
  rewrite H2. cbn [bind].
  assert (Hcs' : forall s, In s cs ->
            exists i j, s = c_name i j /\ 0 <= j < i /\ i < n).
  { intros s Hs. apply Hcs in Hs. destruct Hs as (i & j & Hi & ->).
    exists i, j. split; [reflexivity|]. now apply Hc_in. }
  destruct (place_controls_cells n cs c2 _ Hcs' Hs2 Hc2)
    as (c3 & H3 & Hs3 & Hc3).
  rewrite H3. cbn [bind].
  assert (Hpre : cells n c3 (pre_pipe xs)).
  { eapply cells_ext; [exact Hc3|]. intros r c Hr Hc.
    unfold paint, pre_pipe, dot.
    assert (E3 : existsb (fun s => (r =? control_index s) && (c =? line_index s)) cs
                 = has_atom xs (AtomC c r)).
    { apply bool_eq_iff. rewrite existsb_exists, has_atom_In. split.
      - intros (s & Hs & E). apply Hcs in Hs. destruct Hs as (i & j & Hi & ->).
        assert (Hf1 := field1_c_name i j). assert (Hf2 := field2_c_name i j).
        unfold control_index, line_index in E. rewrite Hf1, Hf2 in E.
        apply andb_prop in E. destruct E as [E1 E2].
        apply Z.eqb_eq in E1. apply Z.eqb_eq in E2. now subst.
      - intros Hi. exists (c_name c r). split; [apply Hcs; eauto|].
        assert (Hf1 := field1_c_name c r). assert (Hf2 := field2_c_name c r).
        unfold control_index, line_index. rewrite Hf1, Hf2.
        now rewrite !Z.eqb_refl. }
    rewrite E3. destruct (has_atom xs (AtomC c r)); [reflexivity|].
    rewrite diagonal_hit by assumption.
    destruct (r =? c); [reflexivity|].
    assert (E1 : existsb (fun s => (r =? line_index s) && (c =? 0)) nots
                 = (c =? 0) && has_atom xs (AtomN r)).
    { apply bool_eq_iff. rewrite existsb_exists. split.
      - intros (s & Hs & E). apply Hnots in Hs. destruct Hs as (i & Hi & ->).
        assert (Hf : field 1 (n_name i) = Ok i) by apply field1_n_name.
        unfold line_index in E. rewrite Hf in E.
        apply andb_prop in E. destruct E as [E1 E2].
        apply Z.eqb_eq in E1. subst i. rewrite E2. cbn [andb].
        now apply has_atom_In.
      - intros E. apply andb_prop in E. destruct E as [E1 E2].
        apply has_atom_In in E2. exists (n_name r).
        split; [apply Hnots; eauto|].
        assert (Hf : field 1 (n_name r) = Ok r) by apply field1_n_name.
        unfold line_index. rewrite Hf. now rewrite Z.eqb_refl, E1. }
    rewrite E1. reflexivity. }
  destruct (place_pipes_cells n c3 _ Hs3 Hpre) as (c4 & H4 & Hs4 & Hc4).
  exists c4. split; [assumption|]. split; [assumption|].
  eapply cells_ext; [exact Hc4|]. intros r c Hr Hc.
  rewrite <- paint_pipes_spec. unfold paint.
  now rewrite pipe_hit by assumption.
Qed.

(** ** The drawing in terms of the atoms *)

Lemma parse_atoms (xs : list atom) :
  xs <> [] ->
  forallb circuit_atom xs = true ->
  exists nots cs m,
    parse (map name xs) = Ok (nots, cs, m + 1) /\
    (forall x, In x xs -> line_of x <= m) /\
    (exists x, In x xs /\ line_of x = m) /\
    (forall s, In s nots <-> exists i, In (AtomN i) xs /\ s = n_name i) /\
    (forall s, In s cs <-> exists i j, In (AtomC i j) xs /\ s = c_name i j).
Proof.
  intros Hne Hall. rewrite forallb_forall in Hall.
  set (data := sort (map name xs)).
  assert (Hdata : forall s, In s data <-> exists x, In x xs /\ s = name x).
  { intros s. unfold data. rewrite In_sort, in_map_iff. split.
    - intros (x & <- & Hx). eauto.
    - intros (x & Hx & ->). eauto. }
  set (qn := fun s => match starts_with "n" s with Ok b => b | Raise _ => false end).
  set (qc := fun s => match starts_with "c" s with Ok b => b | Raise _ => false end).
  assert (Hn : filter_r (starts_with "n") data = Ok (filter qn data)).
  { apply filter_r_total. intros s Hs. apply Hdata in Hs.
    destruct Hs as (x & Hx & ->). unfold qn.
    now rewrite starts_with_name by auto. }
  assert (Hc : filter_r (starts_with "c") data = Ok (filter qc data)).
  { apply filter_r_total. intros s Hs. apply Hdata in Hs.
    destruct Hs as (x & Hx & ->). unfold qc.
    now rewrite starts_with_name by auto. }
  assert (Hpcs : map_r (field 1) (filter qc data)
                 = Ok (map line_index (filter qc data))).
  { apply map_r_total. intros s Hs. apply filter_In in Hs. destruct Hs as [Hs _].
    apply Hdata in Hs. destruct Hs as (x & Hx & ->).
    unfold line_index. now rewrite field1_name by auto. }
  assert (Hidx : map_r (field 1) data = Ok (map line_index data)).
  { apply map_r_total. intros s Hs. apply Hdata in Hs.
    destruct Hs as (x & Hx & ->).
    unfold line_index. now rewrite field1_name by auto. }
  assert (Hli : forall x, In x xs -> line_index (name x) = line_of x).
  { intros x Hx. unfold line_index. now rewrite field1_name by auto. }
  destruct (py_max (map line_index data)) as [m|e] eqn:Hmax.
  2:{ destruct xs as [|x xs']; [contradiction|].
      assert (Hin : In (name x) data) by (apply Hdata; exists x; split; [now left | reflexivity]).
      destruct data; [destruct Hin | discriminate Hmax]. }
  destruct (py_max_spec _ _ Hmax) as [Hmin Hmle].
  exists (filter qn data), (filter qc data), m.
  split.
  { unfold parse. fold data. rewrite Hn. cbn [bind]. rewrite Hc. cbn [bind].
    rewrite Hpcs. cbn [bind]. rewrite Hidx. cbn [bind]. rewrite Hmax.
    reflexivity. }
  split.
  { intros x Hx. apply Hmle. rewrite <- (Hli x Hx). apply in_map.
    apply Hdata. eauto. }
  split.
  { apply in_map_iff in Hmin. destruct Hmin as (s & Hs & Hin).
    apply Hdata in Hin. destruct Hin as (x & Hx & ->).
    exists x. split; [assumption|]. now rewrite <- (Hli x Hx). }
  split.
  - intros s. rewrite filter_In, Hdata. split.
    + intros ((x & Hx & ->) & Hq). unfold qn in Hq.
      rewrite starts_with_name in Hq by auto.
      destruct x as [i j|i t|i]; try discriminate Hq. eauto.
    + intros (i & Hi & ->). split; [exists (AtomN i); auto|]. reflexivity.
  - intros s. rewrite filter_In, Hdata. split.
    + intros ((x & Hx & ->) & Hq). unfold qc in Hq.
      rewrite starts_with_name in Hq by auto.
      destruct x as [i j|i t|i]; try discriminate Hq. eauto.
    + intros (i & j & Hi & ->). split; [exists (AtomC i j); auto|]. reflexivity.
Qed.

Lemma row_text_cells (n : Z) (circ : grid) (f : Z -> Z -> string)
    (num_in num_out i : Z) :
  cells n circ f -> 0 <= i < n ->
  row_text circ n num_in num_out i
  = Ok (label i n num_in num_out
        ++ String.concat EmptyString
             (map (fun c => ("-" ++ f i c ++ "-")%string) (range 0 n))
        ++ NL)%string.
Proof.
  intros Hcells Hi. unfold row_text.
  assert (H : forall ys acc, (forall y, In y ys -> 0 <= y < n) ->
            for_acc ys acc (fun acc j =>
              cell <- get2 circ i j ;; Ok (acc ++ "-" ++ cell ++ "-")%string)
            = Ok (acc ++ String.concat EmptyString
                           (map (fun c => ("-" ++ f i c ++ "-")%string) ys))%string).
  { induction ys as [|y ys IH]; intros acc Hys.
    - cbn [for_acc map String.concat]. now rewrite append_empty_r.
    - cbn [for_acc map]. rewrite Hcells by (assumption || (apply Hys; now left)).
      cbn [bind]. rewrite IH by (intros; apply Hys; now right).
      rewrite concat_cons, append_assoc. reflexivity. }
  rewrite H by (intros y Hy; apply In_range in Hy; lia).
  reflexivity.
Qed.

(** Lines 163-221: for a non-empty file of NOT selectors and of controls
    by lines of smaller index, [draw_circ] draws one line more than the
    largest line index, and writes in each cell the symbol the atoms
    call for: a control dot at row [j] of column [i] for [c_i_j], the
    target marker on the diagonal, a NOT in column 0 for [n_i], a pipe
    on each blank cell strictly between row 0 and the diagonal that has
    a dot above it, and a dash everywhere else. *)
Theorem drawing_of_atoms (xs : list atom) (num_in num_out : Z) :
  xs <> [] ->
  forallb circuit_atom xs = true ->
  exists d,
    render (map name xs) num_in num_out = Ok d /\
    (forall x, In x xs -> line_of x < dim d) /\
    (exists x, In x xs /\ line_of x = dim d - 1) /\
    rows d
    = map (fun r => (label r (dim d) num_in num_out
                     ++ spec_row xs (dim d) r ++ NL)%string)
          (range 0 (dim d)).
Proof.
  intros Hne Hall.
  destruct (parse_atoms xs Hne Hall)
    as (nots & cs & m & Hparse & Hle & (x0 & Hx0 & Hm) & Hnots & Hcs).
  assert (Hpos : 0 < m + 1).
  { rewrite forallb_forall in Hall.
    assert (H0 := line_of_nonneg x0 (Hall _ Hx0)). lia. }
  destruct (matrix_cells xs nots cs (m + 1) Hall) as (circ & Hcirc & Hsq & Hcells);
    try assumption.
  { intros x Hx. specialize (Hle x Hx). lia. }
  assert (Hrows : map_r (row_text circ (m + 1) num_in num_out) (range 0 (m + 1))
                  = Ok (map (fun r => (label r (m + 1) num_in num_out
                                       ++ spec_row xs (m + 1) r ++ NL)%string)
                            (range 0 (m + 1)))).
  { apply map_r_total. intros r Hr. apply In_range in Hr.
    now rewrite (row_text_cells _ _ _ _ _ _ Hcells) by lia. }
  destruct (count_gates_total _ circ Hsq) as [gd Hgd].
  rewrite Z2Nat.id in Hgd by lia.
  eexists. split.
  { unfold render. rewrite Hparse. cbn [bind]. rewrite Hcirc. cbn [bind].
    rewrite Hrows. cbn [bind]. rewrite Hgd. cbn [bind]. reflexivity. }
  cbn [dim rows]. split; [intros x Hx; specialize (Hle x Hx); lia|].
  split; [exists x0; split; [assumption | lia] | reflexivity].
Qed.

Lemma drawing_of_atoms_witness :
  exists d,
    render (map name [AtomN 0; AtomC 2 0; AtomN 1]) 1 1 = Ok d /\
    (forall x, In x [AtomN 0; AtomC 2 0; AtomN 1] -> line_of x < dim d) /\
    (exists x, In x [AtomN 0; AtomC 2 0; AtomN 1] /\ line_of x = dim d - 1) /\
    rows d
    = map (fun r => (label r (dim d) 1 1
                     ++ spec_row [AtomN 0; AtomC 2 0; AtomN 1] (dim d) r
                     ++ NL)%string)
          (range 0 (dim d)).
Proof.
  apply (drawing_of_atoms [AtomN 0; AtomC 2 0; AtomN 1] 1 1);
    [discriminate | reflexivity].
Defined.

(** ** The gate counts *)

Lemma total_app (l1 l2 : list Z) : total (l1 ++ l2) = total l1 + total l2.
Proof.
  induction l1 as [|x l1 IH]; [reflexivity|].
  change (total ((x :: l1) ++ l2)) with (x + total (l1 ++ l2)).
  change (total (x :: l1)) with (x + total l1). lia.
Qed.

Lemma dict_total_app (d1 d2 : dict) :
  dict_total (d1 ++ d2) = dict_total d1 + dict_total d2.
Proof. unfold dict_total. now rewrite map_app, total_app. Qed.

Lemma dict_total_add (k : string) (x : Z) (d : dict) :
  dict_mem k d = true -> dict_total (dict_add k x d) = dict_total d + x.
Proof.
  unfold dict_total, total. induction d as [|[k' y] d IH]; [discriminate|].
  cbn [dict_mem dict_add]. destruct (String.eqb k' k); cbn [orb].
  - intros _. cbn [map fold_right snd]. lia.
  - intros H. cbn [map fold_right snd]. rewrite IH by assumption. lia.
Qed.

Lemma dict_total_bump (k : string) (x : Z) (d : dict) :
  dict_total (dict_bump k x d) = dict_total d + x.
Proof.
  unfold dict_bump. destruct (dict_mem k d) eqn:E.
  - now apply dict_total_add.
  - rewrite dict_total_app. unfold dict_total, total. cbn. lia.
Qed.

Lemma In_keys_add (k k0 : string) (x : Z) (d : dict) :
  In k0 (map fst (dict_add k x d)) <-> In k0 (map fst d).
Proof.
  induction d as [|[k' y] d IH]; [reflexivity|].
  cbn [dict_add]. destruct (String.eqb k' k); cbn [map fst In]; [reflexivity|].
  now rewrite IH.
Qed.

Lemma dict_mem_In (k : string) (d : dict) :
  dict_mem k d = true <-> In k (map fst d).
Proof.
  induction d as [|[k' y] d IH]; cbn [dict_mem map fst In].
  - split; [discriminate | tauto].
  - rewrite orb_true_iff, IH, String.eqb_eq. reflexivity.
Qed.

Lemma NoDup_keys_add (k : string) (x : Z) (d : dict) :
  NoDup (map fst d) -> NoDup (map fst (dict_add k x d)).
Proof.
  induction d as [|[k' y] d IH]; intros H; [constructor|].
  cbn [dict_add]. destruct (String.eqb k' k); [exact H|].
  cbn [map fst] in *. inversion H as [|? ? Hn Hd]; subst.
  constructor; [|now apply IH]. now rewrite In_keys_add.
Qed.

Lemma NoDup_keys_bump (k : string) (x : Z) (d : dict) :
  NoDup (map fst d) -> NoDup (map fst (dict_bump k x d)).
Proof.
  intros H. unfold dict_bump. destruct (dict_mem k d) eqn:E.
  - now apply NoDup_keys_add.
  - rewrite map_app. cbn [map fst].
    apply NoDup_app; [assumption | repeat constructor; intros [] |].
    intros k0 Hk0 [<-|[]].
    apply dict_mem_In in Hk0. congruence.
Qed.

Lemma insert_desc_total (p : string * Z) (l : dict) :
  dict_total (insert_desc p l) = snd p + dict_total l.
Proof.
  unfold dict_total, total. induction l as [|q l IH]; [reflexivity|].
  cbn [insert_desc]. destruct (snd q >=? snd p); cbn [map fold_right];
    [rewrite IH|]; lia.
Qed.

Lemma insert_desc_perm (p : string * Z) (l : dict) :
  Permutation (p :: l) (insert_desc p l).
Proof.
  induction l as [|q l IH]; [apply Permutation_refl|].
  cbn [insert_desc]. destruct (snd q >=? snd p); [|apply Permutation_refl].
  eapply Permutation_trans; [apply perm_swap|]. now apply perm_skip.
Qed.

Lemma insert_desc_sorted (p : string * Z) (l : dict) :
  StronglySorted desc l -> StronglySorted desc (insert_desc p l).
Proof.
  induction l as [|q l IH]; intros H.
  - repeat constructor.
  - inversion H as [|? ? Hl Hq]; subst. cbn [insert_desc].
    destruct (Z.geb_spec (snd q) (snd p)) as [Hge|Hlt].
    + constructor; [now apply IH|].
      rewrite Forall_forall in *. intros r Hr.
      apply (Permutation_in _ (Permutation_sym (insert_desc_perm p l))) in Hr.
      destruct Hr as [<-|Hr]; [unfold desc; lia | now apply Hq].
    + constructor; [assumption|]. constructor; [unfold desc; lia|].
      rewrite Forall_forall in *. intros r Hr. specialize (Hq r Hr).
      unfold desc in *. lia.
Qed.

Lemma insert_desc_with_count (k : Z) (p : string * Z) (l : dict) :
  StronglySorted desc l ->
  with_count k (insert_desc p l)
  = (with_count k l ++ with_count k [p])%list.
Proof.
  unfold with_count. induction l as [|q l IH]; intros H; [reflexivity|].
  inversion H as [|? ? Hl Hq]; subst. cbn [insert_desc].
  destruct (Z.geb_spec (snd q) (snd p)) as [Hge|Hlt].
  - cbn [filter]. rewrite IH by assumption.
    destruct (snd q =? k); reflexivity.
  - cbn [filter]. destruct (Z.eqb_spec (snd p) k) as [Hp|Hp].
    + assert (Hq0 : (snd q =? k) = false) by (apply Z.eqb_neq; lia).
      rewrite Hq0.
      assert (Hnil : filter (fun r => snd r =? k) l = []).
      { rewrite Forall_forall in Hq. clear - Hq Hlt Hp.
        induction l as [|r l IH]; [reflexivity|]. cbn [filter].
        assert (Hr := Hq r (or_introl eq_refl)). unfold desc in Hr.
        destruct (Z.eqb_spec (snd r) k); [lia|].
        apply IH. intros; apply Hq; now right. }
      now rewrite Hnil.
    + now rewrite app_nil_r.
Qed.

Lemma sorted_desc_from (d acc : dict) :
  StronglySorted desc acc ->
  StronglySorted desc (fold_left (fun a p => insert_desc p a) d acc) /\
  Permutation (acc ++ d) (fold_left (fun a p => insert_desc p a) d acc) /\
  (forall k, with_count k (fold_left (fun a p => insert_desc p a) d acc)
             = (with_count k acc ++ with_count k d)%list) /\
  dict_total (fold_left (fun a p => insert_desc p a) d acc)
  = dict_total acc + dict_total d.
Proof.
  revert acc. induction d as [|p d IH]; intros acc Hacc; cbn [fold_left].
  - rewrite app_nil_r. repeat split; try assumption;
      [apply Permutation_refl | intros k; unfold with_count; cbn [filter];
                                now rewrite app_nil_r
      | unfold dict_total, total; cbn; lia].
  - destruct (IH (insert_desc p acc) (insert_desc_sorted p acc Hacc))
      as (Hs & Hp & Hc & Ht).
    split; [assumption|]. split.
    { eapply Permutation_trans; [|exact Hp].
      eapply Permutation_trans; [apply Permutation_sym, Permutation_middle|].
      apply (Permutation_app_tail d (insert_desc_perm p acc)). }
    split.
    { intros k. rewrite Hc, insert_desc_with_count by assumption.
      rewrite <- app_assoc. f_equal. unfold with_count. cbn [filter].
      destruct (snd p =? k); reflexivity. }
    rewrite Ht, insert_desc_total. unfold dict_total, total.
    cbn [map fold_right]. lia.
Qed.

(** Line 252: the gate counts are put in descending order of count, the
    same entries as before, entries of equal count keeping the order in
    which they entered the dictionary. *)
Lemma sorted_desc_spec (d : dict) :
  StronglySorted desc (sorted_desc d) /\
  Permutation d (sorted_desc d) /\
  (forall k, with_count k (sorted_desc d) = with_count k d).
Proof.
  destruct (sorted_desc_from d [] (SSorted_nil _)) as (Hs & Hp & Hc & _).
  split; [assumption|]. split; [assumption|]. exact Hc.
Qed.

Lemma count_gates_sum (circ : grid) (n : Z) (gd : dict) :
  count_gates circ n = Ok gd ->
  dict_total gd = Z.max 0 (n - 1) /\ NoDup (map fst gd).
Proof.
  unfold count_gates. rewrite <- (len_range 1 n).
  assert (H : forall ys gd0 gd1,
            for_acc ys gd0 (fun gate_dict i =>
              num_os <- count_controls circ n i ;;
              Ok (dict_bump (times_C num_os ++ "NOT")%string 1 gate_dict)) = Ok gd1 ->
            NoDup (map fst gd0) ->
            dict_total gd1 = dict_total gd0 + len ys /\ NoDup (map fst gd1)).
  { induction ys as [|y ys IH]; intros gd0 gd1 Hr Hnd.
    - cbn [for_acc] in Hr. injection Hr as <-. unfold len. cbn. split; [lia | assumption].
    - cbn [for_acc] in Hr. inv_bind Hr. inv_bind Hx. injection Hx as <-.
      destruct (IH _ _ Hr (NoDup_keys_bump _ 1 _ Hnd)) as [Ht Hn].
      split; [|assumption]. rewrite Ht, dict_total_bump.
      unfold len. cbn [List.length]. lia. }
  intros Hr. destruct (H _ _ _ Hr (NoDup_nil _)) as [Ht Hn].
  split; [|assumption]. rewrite Ht. unfold dict_total, total. cbn. lia.
Qed.

(** Lines 229-255: the gate counts written are sorted by descending
    count, name no gate type twice, and add up to one gate for every
    column from 1 on plus one for every line of the file that starts
    with [n]. *)
Theorem gate_counts_sum (lines : list string) (num_in num_out : Z) (d : drawing) :
  render lines num_in num_out = Ok d ->
  exists nots gd,
    filter_r (starts_with "n") (sort lines) = Ok nots /\
    counts d = map count_line gd /\
    dict_total gd = Z.max 0 (dim d - 1) + len nots /\
    NoDup (map fst gd) /\
    StronglySorted desc gd.
Proof.
  unfold render, parse. intros H.
  inv_bind H. inv_bind Hx. inv_bind Hx. inv_bind Hx. inv_bind Hx. inv_bind Hx.
  injection Hx as <-.
  inv_bind H. inv_bind H. inv_bind H. injection H as <-.
  cbn [dim counts].
  match goal with
  | Hn : filter_r (starts_with "n") _ = Ok ?nots,
    Hg : count_gates _ _ = Ok ?gd |- _ =>
      destruct (count_gates_sum _ _ _ Hg) as [Ht Hnd];
      destruct (sorted_desc_from (dict_bump "NOT" (len nots) gd) []
                  (SSorted_nil _)) as (Hs & Hp & _ & Hsum);
      exists nots, (sorted_desc (dict_bump "NOT" (len nots) gd));
      split; [exact Hn|]; split; [reflexivity|]; split;
      [ unfold sorted_desc; rewrite Hsum, dict_total_bump, Ht;
        unfold dict_total, total; cbn; lia |];
      split; [|exact Hs];
      apply (Permutation_NoDup (l := map fst (dict_bump "NOT" (len nots) gd)));
      [ apply Permutation_map; exact Hp | now apply NoDup_keys_bump ]
  end.
Qed.

Lemma gate_counts_sum_witness :
  exists nots gd,
    filter_r (starts_with "n") (sort ["n_0"; "c_2_0"; "n_1"]%string) = Ok nots /\
    counts {| dim := 3;
              rows := ["|i> -X-----o-" ++ NL; "|a> -X--X--|-" ++ NL;
                       "|o> -------X-" ++ NL]%string;
              counts := ["NOT gates: 3" ++ NL; "CNOT gates: 1" ++ NL]%string |}
    = map count_line gd /\
    dict_total gd = Z.max 0 (3 - 1) + len nots /\
    NoDup (map fst gd) /\
    StronglySorted desc gd.
Proof.
  apply (gate_counts_sum ["n_0"; "c_2_0"; "n_1"]%string 1 1).
  vm_compute. reflexivity.
Defined.

(** ** The order of the lines of the atom file *)

Lemma ascii_compare_refl (a : ascii) : Ascii.compare a a = Datatypes.Eq.
Proof. unfold Ascii.compare. apply N.compare_refl. Qed.

Lemma ascii_compare_lt_trans (a b c : ascii) :
  Ascii.compare a b = Lt -> Ascii.compare b c = Lt -> Ascii.compare a c = Lt.
Proof.
  unfold Ascii.compare. rewrite !N.compare_lt_iff. apply N.lt_trans.
Qed.

Lemma string_compare_trans (s1 s2 s3 : string) :
  String.compare s1 s2 <> Gt -> String.compare s2 s3 <> Gt ->
  String.compare s1 s3 <> Gt.
Proof.
  revert s2 s3. induction s1 as [|c1 s1 IH]; intros [|c2 s2] [|c3 s3];
    cbn [String.compare]; try congruence.
  destruct (Ascii.compare c1 c2) eqn:E12; try congruence;
    destruct (Ascii.compare c2 c3) eqn:E23; try congruence.
  - apply Ascii.compare_eq_iff in E12. apply Ascii.compare_eq_iff in E23.
    subst. rewrite ascii_compare_refl. apply IH.
  - apply Ascii.compare_eq_iff in E12. subst. rewrite E23. congruence.
  - apply Ascii.compare_eq_iff in E23. subst. rewrite E12. congruence.
  - rewrite (ascii_compare_lt_trans _ _ _ E12 E23). congruence.
Qed.

Lemma str_le_trans (a b c : string) : str_le a b -> str_le b c -> str_le a c.
Proof.
  unfold str_le, String.leb. intros H1 H2.
  assert (H := string_compare_trans a b c).
  destruct (String.compare a b); try discriminate;
    destruct (String.compare b c); try discriminate;
    destruct (String.compare a c); try reflexivity;
    exfalso; apply H; congruence.
Qed.

Lemma insert_sorted_perm (x : string) (l : list string) :
  Permutation (x :: l) (insert_sorted x l).
Proof.
  induction l as [|y l IH]; [apply Permutation_refl|].
  cbn [insert_sorted]. destruct (String.leb x y); [apply Permutation_refl|].
  eapply Permutation_trans; [apply perm_swap|]. now apply perm_skip.
Qed.

Lemma sort_perm (l : list string) : Permutation l (sort l).
Proof.
  unfold sort. induction l as [|x l IH]; [apply Permutation_refl|].
  cbn [fold_right].
  eapply Permutation_trans; [|apply insert_sorted_perm]. now apply perm_skip.
Qed.

Lemma insert_sorted_sorted (x : string) (l : list string) :
  StronglySorted str_le l -> StronglySorted str_le (insert_sorted x l).
Proof.
  induction l as [|y l IH]; intros H; [repeat constructor|].
  inversion H as [|? ? Hl Hy]; subst. cbn [insert_sorted].
  destruct (String.leb x y) eqn:E.
  - constructor; [assumption|]. constructor; [exact E|].
    rewrite Forall_forall in *. intros z Hz.
    apply (str_le_trans x y z); [exact E | now apply Hy].
  - constructor; [now apply IH|].
    rewrite Forall_forall in *. intros z Hz.
    apply In_insert_sorted in Hz. destruct Hz as [->|Hz]; [|now apply Hy].
    destruct (String.leb_total x y) as [H1|H1]; [congruence | exact H1].
Qed.

Lemma sort_sorted (l : list string) : StronglySorted str_le (sort l).
Proof.
  unfold sort. induction l as [|x l IH]; cbn [fold_right]; [constructor|].
  now apply insert_sorted_sorted.
Qed.

Lemma sorted_unique (l1 l2 : list string) :
  StronglySorted str_le l1 -> StronglySorted str_le l2 ->
  Permutation l1 l2 -> l1 = l2.
Proof.
  revert l2. induction l1 as [|a l1 IH]; intros l2 H1 H2 Hp.
  - apply Permutation_nil in Hp. now subst.
  - destruct l2 as [|b l2].
    { apply Permutation_sym, Permutation_nil in Hp. discriminate. }
    inversion H1 as [|? ? Hs1 Ha]; subst.
    inversion H2 as [|? ? Hs2 Hb]; subst.
    rewrite Forall_forall in Ha, Hb.
    assert (Eab : a = b).
    { assert (Hin1 : In a (b :: l2)) by (eapply Permutation_in; [exact Hp | now left]).
      assert (Hin2 : In b (a :: l1))
        by (eapply Permutation_in; [apply Permutation_sym; exact Hp | now left]).
      destruct Hin1 as [->|Hin1]; [reflexivity|].
      destruct Hin2 as [->|Hin2]; [reflexivity|].
      apply String.leb_antisym; [now apply Ha | now apply Hb]. }
    subst b. f_equal. apply IH; try assumption.
    now apply Permutation_cons_inv in Hp.
Qed.

(** Lines 167-255: [data.sort()] makes the drawing independent of the
    order in which the solver lists the atoms: two atom files with the
    same lines in any order give the same result, drawing or
    exception. *)
Theorem render_order_independent (lines1 lines2 : list string)
    (num_in num_out : Z) :
  Permutation lines1 lines2 ->
  sort lines1 = sort lines2 /\
  render lines1 num_in num_out = render lines2 num_in num_out.
Proof.
  intros Hp.
  assert (E : sort lines1 = sort lines2).
  { apply sorted_unique; try apply sort_sorted.
    eapply Permutation_trans; [apply Permutation_sym, sort_perm|].
    eapply Permutation_trans; [exact Hp | apply sort_perm]. }
  split; [exact E|]. unfold render, parse. now rewrite E.
Qed.

Lemma render_order_independent_witness :
  sort ["n_0"; "c_2_0"; "n_1"]%string = sort ["c_2_0"; "n_1"; "n_0"]%string /\
  render ["n_0"; "c_2_0"; "n_1"]%string 1 1
  = render ["c_2_0"; "n_1"; "n_0"]%string 1 1.
Proof.
  apply (render_order_independent ["n_0"; "c_2_0"; "n_1"]%string
           ["c_2_0"; "n_1"; "n_0"]%string 1 1).
  apply (Permutation_cons_app ["c_2_0"; "n_1"]%string []).
  apply Permutation_refl.
Defined.

(** ** Whole runs *)






Section WholeRuns.

Variable read_csv : string -> result (list (list Z)).
Variable check : list formula -> option model.



End WholeRuns.


(** ** Helper checks and the atoms of the formula *)

(** Lines 262-266: on a matrix with at least [j] rows of more than [i]
    cells, [o_above] returns whether some row above row [j] holds a
    control dot in column [i]; for [j = 0] it returns [False]. *)
Theorem o_above_spec (n : nat) (circ : grid) (j i : Z) :
  square n circ ->
  0 <= j <= Z.of_nat n ->
  0 <= i < Z.of_nat n ->
  exists b,
    o_above circ j i = Ok b /\
    (b = true <-> exists y, 0 <= y < j /\ get2 circ y i = Ok CONTROL_DOT).
Proof.
  intros Hsq Hj Hi.
  set (f := fun r c => match get2 circ r c with Ok x => x | Raise _ => EmptyString end).
  assert (Hcells : cells (Z.of_nat n) circ f).
  { intros r c Hr Hc. unfold f.
    destruct (get2_square n circ r c Hsq Hr Hc) as [cell ->]. reflexivity. }
  rewrite (o_above_cells _ _ _ _ _ Hcells Hj Hi).
  eexists. split; [reflexivity|]. rewrite existsb_exists. split.
  - intros (y & Hy & E). apply In_range in Hy. apply String.eqb_eq in E.
    exists y. split; [lia|]. rewrite Hcells by lia. now rewrite E.
  - intros (y & Hy & E). exists y. split; [apply In_range; lia|].
    rewrite Hcells in E by lia. injection E as ->. apply String.eqb_refl.
Qed.

Lemma o_above_spec_witness :
  exists b,
    o_above [["X"; "o"]; ["-"; "X"]]%string 1 1 = Ok b /\
    (b = true <->
     exists y, 0 <= y < 1 /\ get2 [["X"; "o"]; ["-"; "X"]]%string y 1 = Ok CONTROL_DOT).
Proof.
  apply (o_above_spec 2 [["X"; "o"]; ["-"; "X"]]%string 1 1);
    [split; [reflexivity | repeat constructor] | lia | lia].
Defined.

Lemma py_get_In {A} (l : list A) (k : Z) (x : A) : py_get l k = Ok x -> In x l.
Proof.
  unfold py_get. destruct (norm_index (List.length l) k) as [p|]; [|discriminate].
  destruct (nth_error l p) eqn:E; [|discriminate].
  intros [= <-]. eapply nth_error_In; eauto.
Qed.

Lemma get2_In {A} (a : list (list A)) (i j : Z) (x : A) :
  get2 a i j = Ok x -> exists row, In row a /\ In x row.
Proof.
  unfold get2. intros H. inv_bind H.
  exists x0. split; eapply py_get_In; eauto.
Qed.

Lemma in_formula_c (g r i j : Z) :
  0 <= i < g -> 0 <= j < g -> in_formula g r (AtomC i j) = true.
Proof.
  intros Hi Hj. cbn [in_formula].
  repeat (apply andb_true_intro; split);
    (apply Z.leb_le || apply Z.ltb_lt); lia.
Qed.

Lemma in_formula_v (g r i t : Z) :
  0 <= i < g -> 0 <= t < r -> in_formula g r (AtomV i t) = true.
Proof.
  intros Hi Ht. cbn [in_formula].
  repeat (apply andb_true_intro; split);
    (apply Z.leb_le || apply Z.ltb_lt); lia.
Qed.

Lemma in_formula_n (g r i : Z) : 0 <= i < g -> in_formula g r (AtomN i) = true.
Proof.
  intros Hi. cbn [in_formula].
  repeat (apply andb_true_intro; split);
    (apply Z.leb_le || apply Z.ltb_lt); lia.
Qed.

Lemma make_c_over (g r i j : Z) (x : formula) :
  get2 (make_c g) i j = Ok x -> over_atoms g r x.
Proof.
  intros H. apply get2_In in H. destruct H as (row & Hrow & Hx).
  unfold make_c in Hrow. apply in_map_iff in Hrow.
  destruct Hrow as (i' & <- & Hi'). apply In_range in Hi'.
  apply in_map_iff in Hx. destruct Hx as (j' & <- & Hj'). apply In_range in Hj'.
  intros a [<-|[]]. exists (AtomC i' j'). split; [now apply in_formula_c | reflexivity].
Qed.

Lemma make_v_over (g r i t : Z) (x : formula) :
  get2 (make_v g r) i t = Ok x -> over_atoms g r x.
Proof.
  intros H. apply get2_In in H. destruct H as (row & Hrow & Hx).
  unfold make_v in Hrow. apply in_map_iff in Hrow.
  destruct Hrow as (i' & <- & Hi'). apply In_range in Hi'.
  apply in_map_iff in Hx. destruct Hx as (t' & <- & Ht'). apply In_range in Ht'.
  intros a [<-|[]]. exists (AtomV i' t'). split; [now apply in_formula_v | reflexivity].
Qed.

Lemma make_n_over (g r i : Z) (x : formula) :
  py_get (make_n g) i = Ok x -> over_atoms g r x.
Proof.
  intros H. apply py_get_In in H. unfold make_n in H. apply in_map_iff in H.
  destruct H as (i' & <- & Hi'). apply In_range in Hi'.
  intros a [<-|[]]. exists (AtomN i'). split; [now apply in_formula_n | reflexivity].
Qed.

Lemma over_atoms_2 (g r : Z) (x y : formula) (op : formula -> formula -> formula) :
  (forall u v, atoms_of (op u v) = atoms_of u ++ atoms_of v)%list ->
  over_atoms g r x -> over_atoms g r y -> over_atoms g r (op x y).
Proof.
  intros Hop Hx Hy a Ha. rewrite Hop in Ha. apply in_app_or in Ha.
  destruct Ha; auto.
Qed.

Lemma over_atoms_val (g r : Z) (b : bool) : over_atoms g r (BoolVal b).
Proof. intros a []. Qed.

Lemma for_add_origin {A} (xs : list A) (body : A -> result (list formula))
    (fs : list formula) (f : formula) :
  for_add xs body = Ok fs -> In f fs ->
  exists x gs, In x xs /\ body x = Ok gs /\ In f gs.
Proof.
  revert fs. induction xs as [|x xs IH]; intros fs H Hf.
  - cbn [for_add] in H. injection H as <-. destruct Hf.
  - cbn [for_add] in H. inv_bind H. inv_bind H. injection H as <-.
    apply in_app_or in Hf. destruct Hf as [Hf|Hf].
    + exists x, x0. split; [now left|]. auto.
    + destruct (IH _ Hx0 Hf) as (y & gs & Hy & Hb & Hg).
      exists y, gs. split; [now right|]. auto.
Qed.

Lemma for_acc_preserves {A S} (Inv : S -> Prop) (xs : list A) (s s' : S)
    (body : S -> A -> result S) :
  for_acc xs s body = Ok s' ->
  Inv s ->
  (forall s0 x s1, In x xs -> Inv s0 -> body s0 x = Ok s1 -> Inv s1) ->
  Inv s'.
Proof.
  revert s. induction xs as [|x xs IH]; intros s H Hs Hb; cbn [for_acc] in H.
  - now injection H as <-.
  - inv_bind H. apply (IH x0 H).
    + eapply Hb; eauto. now left.
    + intros s0 y s1 Hy. apply Hb. now right.
Qed.

(** Lines 73-140: every atom that occurs in the formula is one of the
    entries of the arrays [c], [v] and [n], with line indices below the
    gate count and row indices below the number of rows: a model of the
    formula names no other atom. *)
Theorem formula_atoms (truth_table : list (list Z)) (g : Z) (fs : list formula)
    (f : formula) :
  constraints truth_table g = Ok fs ->
  In f fs ->
  over_atoms g (len truth_table) f.
Proof.
  intros H Hf.
  destruct (constraints_inv _ _ _ H) as (row0 & a & p & e & _ & Ha & Hp & He & ->).
  set (r := len truth_table) in *.
  assert (Heq : forall x y, over_atoms g r x -> over_atoms g r y ->
                over_atoms g r (Eq x y))
    by (intros; apply (over_atoms_2 g r _ _ Eq); auto).
  apply in_app_or in Hf. destruct Hf as [Hf|Hf]; [|apply in_app_or in Hf;
                                                   destruct Hf as [Hf|Hf]].
  - unfold acyclic in Ha.
    destruct (for_add_origin _ _ _ _ Ha Hf) as (i & gs & _ & Hgs & Hf1).
    destruct (for_add_origin _ _ _ _ Hgs Hf1) as (j & hs & _ & Hhs & Hf2).
    inv_bind Hhs. injection Hhs as <-. destruct Hf2 as [<-|[]].
    apply Heq; [eapply make_c_over; eauto | apply over_atoms_val].
  - unfold pin_outputs in Hp.
    destruct (for_add_origin _ _ _ _ Hp Hf) as (gate & gs & _ & Hgs & Hf1).
    destruct (for_add_origin _ _ _ _ Hgs Hf1) as (t & hs & _ & Hhs & Hf2).
    inv_bind Hhs. inv_bind Hhs.
    destruct (x =? 0); injection Hhs as <-; destruct Hf2 as [<-|[]];
      (apply Heq; [eapply make_v_over; eauto | apply over_atoms_val]).
  - unfold evolution in He.
    destruct (for_add_origin _ _ _ _ He Hf) as (i & gs & _ & Hgs & Hf1).
    destruct (for_add_origin _ _ _ _ Hgs Hf1) as (t & hs & _ & Hhs & Hf2).
    inv_bind Hhs. inv_bind Hhs. injection Hhs as <-. destruct Hf2 as [<-|[]].
    apply Heq; [eapply make_v_over; eauto|].
    unfold gate_clause in Hx. inv_bind Hx. inv_bind Hx.
    match goal with
    | Hn : py_get (make_n g) i = Ok ?ni,
      Ht : for_acc _ _ _ = Ok ?temp |- _ =>
        assert (Htemp : over_atoms g r temp);
        [ eapply (for_acc_preserves (over_atoms g r));
          [ exact Ht | apply over_atoms_val |];
          intros s0 count s1 _ Hs0 Hb; inv_bind Hb; inv_bind Hb;
          injection Hb as <-;
          apply (over_atoms_2 g r _ _ And); auto;
          apply (over_atoms_2 g r _ _ Or); auto;
          [ eapply make_v_over; eauto
          | intros a0 Ha0; cbn [atoms_of] in Ha0;
            eapply make_c_over; eauto ]
        |];
        assert (Hxor : over_atoms g r (Xor ni temp));
        [ apply (over_atoms_2 g r _ _ Xor); auto; eapply make_n_over; eauto |]
    end.
    destruct (i <? ceil_log2 r).
    + inv_bind Hx. injection Hx as <-.
      apply (over_atoms_2 g r _ _ Xor); auto. apply over_atoms_val.
    + now injection Hx as <-.
Qed.

Lemma formula_atoms_witness :
  over_atoms 2 (len not_table) (Eq (Bool "c_0_1") (BoolVal false)).
Proof.
  apply (formula_atoms not_table 2 not_formula); [reflexivity|].
  right. left. reflexivity.
Defined.



(** The drawing of three atoms, cell by cell. *)
Example spec_rows_example :
  map (spec_row [AtomN 0; AtomC 2 0; AtomN 1] 3) [0; 1; 2]
  = ["-X-----o-"; "-X--X--|-"; "-------X-"]%string.
Proof. vm_compute. reflexivity. Qed.

(** ** Malformed atom files *)

Lemma filter_r_raise {A} (p : A -> result bool) (l : list A) (x : A) (e : exn) :
  In x l -> p x = Raise e ->
  (forall y, In y l -> (exists b, p y = Ok b) \/ p y = Raise e) ->
  filter_r p l = Raise e.
Proof.
  induction l as [|y l IH]; intros Hin Hx Hall; [destruct Hin|].
  cbn [filter_r].
  destruct (Hall y (or_introl eq_refl)) as [[b Hb]|Hb]; rewrite Hb; cbn [bind];
    [|reflexivity].
  destruct Hin as [->|Hin]; [congruence|].
  rewrite IH; auto. intros z Hz. apply Hall. now right.
Qed.

Lemma starts_with_cases (ch : ascii) (s : string) :
  (exists b, starts_with ch s = Ok b) \/ starts_with ch s = Raise IndexError.
Proof. destruct s as [|a s]; [now right | left; eexists; reflexivity]. Qed.

(** Lines 165-168: a blank line anywhere in the atom file makes
    [draw_circ] raise [IndexError] (the first character of an empty
    string) before the output file is opened. *)
Theorem blank_line_raises (infile outfile text : string) (num_in num_out : Z)
    (w : world) :
  lookup infile (files w) = Some text ->
  In EmptyString (splitlines text) ->
  render (splitlines text) num_in num_out = Raise IndexError /\
  draw_circ infile outfile num_in num_out w
  = (Raise IndexError, mkWorld (files w) (trace w ++ [EvCall "draw_circ"])).
Proof.
  intros Hf Hin.
  assert (Hr : render (splitlines text) num_in num_out = Raise IndexError).
  { unfold render, parse.
    rewrite (filter_r_raise (starts_with "n") (sort (splitlines text))
               EmptyString IndexError);
      [reflexivity | now apply In_sort | reflexivity |].
    intros y _. apply starts_with_cases. }
  split; [exact Hr|].
  unfold draw_circ, bindM, emit, read_file, lift. cbn [files trace].
  now rewrite Hf, Hr.
Qed.

Lemma blank_line_raises_witness :
  render (splitlines ("n_0" ++ NL ++ NL ++ "n_1" ++ NL)) 1 1 = Raise IndexError /\
  draw_circ "out" "out" 1 1
    (world0 [("out", "n_0" ++ NL ++ NL ++ "n_1" ++ NL)]%string)
  = (Raise IndexError,
     mkWorld (files (world0 [("out", "n_0" ++ NL ++ NL ++ "n_1" ++ NL)]%string))
             (trace (world0 [("out", "n_0" ++ NL ++ NL ++ "n_1" ++ NL)]%string)
              ++ [EvCall "draw_circ"])).
Proof.
  apply (blank_line_raises "out" "out" ("n_0" ++ NL ++ NL ++ "n_1" ++ NL) 1 1
           (world0 [("out", "n_0" ++ NL ++ NL ++ "n_1" ++ NL)]%string));
    [reflexivity | right; left; reflexivity].
Defined.

(** ** The program writes only its output file *)

Lemma touches_only_refl (out : string) (w : world) : touches_only out w w.
Proof.
  split; [|reflexivity]. exists []. split; [now rewrite app_nil_r | constructor].
Qed.

Lemma touches_only_trans (out : string) (w1 w2 w3 : world) :
  touches_only out w1 w2 -> touches_only out w2 w3 -> touches_only out w1 w3.
Proof.
  intros [(d1 & E1 & F1) L1] [(d2 & E2 & F2) L2]. split.
  - exists (d1 ++ d2)%list. split; [now rewrite E2, E1, app_assoc|].
    apply Forall_app. auto.
  - intros p Hp. now rewrite L2, L1.
Qed.

Lemma frame_ret {A} (out : string) (a : A) : frame out (ret a).
Proof. intros w. apply touches_only_refl. Qed.

Lemma frame_lift {A} (out : string) (r : result A) : frame out (lift r).
Proof. intros w. apply touches_only_refl. Qed.

Lemma frame_isfile (out path : string) : frame out (isfile path).
Proof. intros w. apply touches_only_refl. Qed.

Lemma frame_read_file (out path : string) : frame out (read_file path).
Proof.
  intros w. unfold read_file. destruct (lookup path (files w));
    apply touches_only_refl.
Qed.

Lemma frame_emit (out : string) (e : event) :
  writes_to out e -> frame out (emit e).
Proof.
  intros He w. unfold emit. cbn [snd]. split; [|reflexivity].
  exists [e]. split; [reflexivity | now constructor].
Qed.

Lemma frame_write_file (out text : string) : frame out (write_file out text).
Proof.
  intros w. unfold write_file. cbn [snd]. split.
  - exists [EvWrite out text]. split; [reflexivity|]. now constructor.
  - intros p Hp. cbn [files lookup].
    destruct (String.eqb_spec out p); [congruence | reflexivity].
Qed.

Lemma frame_bind {A B} (out : string) (m : M A) (k : A -> M B) :
  frame out m -> (forall a, frame out (k a)) -> frame out (bindM m k).
Proof.
  intros Hm Hk w. unfold bindM. specialize (Hm w).
  destruct (m w) as [[a|e] w1]; cbn [snd] in *; [|exact Hm].
  eapply touches_only_trans; [exact Hm | apply Hk].
Qed.

Ltac frame_step :=
  first [ apply frame_bind; [|intros ?]
        | apply frame_ret | apply frame_lift | apply frame_isfile
        | apply frame_read_file | apply frame_write_file
        | apply frame_emit; exact I
        | match goal with
          | |- frame _ (match ?d with _ => _ end) => destruct d
          end ].


Lemma frame_draw_circ (infile outfile : string) (num_in num_out : Z) :
  frame outfile (draw_circ infile outfile num_in num_out).
Proof. unfold draw_circ, print. repeat frame_step. Qed.

